(** * Casa Arboledas reporting: the data module ([data.js])

    A shallow embedding of [DataService] (CSV tokenizer, numeric and date
    coercions, sheet parsers, expense aggregation, fetch cache) and the
    properties of it that the specification states.

    Conventions of the embedding.
    - A JavaScript string is the list of its UTF-16 code units ([list N]).
    - A JavaScript number is [number]: a finite value is an exact rational
      (no rounding, overflow or underflow of IEEE doubles is modelled), next
      to the two infinities and NaN.
    - [undefined] is [None]; an array is a [list], read with [!!].
    - A plain object used as a dictionary is a [gmap] of its own properties;
      reads go through [Object.prototype] as they do in JavaScript. *)

From Stdlib Require Import ZArith NArith QArith Qcanon String Ascii List Lia.
From Stdlib Require Import DecimalString.
From stdpp Require Import gmap list numbers.

Set Default Proof Using "Type".

(** ** Strings *)

Abbreviation jsstring := (list N).

(** An ASCII literal as a JavaScript string. *)
Fixpoint js (s : string) : jsstring :=
  match s with
  | EmptyString => []
  | String a s' => N_of_ascii a :: js s'
  end.

Definition QUOTE : N := 34.
Definition COMMA : N := 44.
Definition LF : N := 10.
Definition CR : N := 13.
Definition SLASH : N := 47.
Definition PIPE : N := 124.

(** ECMAScript [WhiteSpace] and [LineTerminator] code points: what [trim]
    removes and what [\s] matches. *)
Definition isWhiteSpace (c : N) : bool :=
  (bool_decide (c ∈ [9; 10; 11; 12; 13; 32; 160; 5760; 8232; 8233; 8239; 8287;
                     12288; 65279]%N)
   || ((8192 <=? c) && (c <=? 8202)))%N.

Fixpoint trimStart (s : jsstring) : jsstring :=
  match s with
  | [] => []
  | c :: s' => if isWhiteSpace c then trimStart s' else s
  end.

Definition trimEnd (s : jsstring) : jsstring := rev (trimStart (rev s)).

Definition trim (s : jsstring) : jsstring := trimEnd (trimStart s).

(** Truthiness of a string: the empty string is falsy. *)
Definition truthy_str (s : jsstring) : bool :=
  match s with [] => false | _ => true end.

(** [String.prototype.toLowerCase], on the Basic Latin and Latin-1 blocks;
    other code units are left as they are.  The module only tests the result
    with [startsWith] against fixed labels written in these two blocks, and no
    code point outside them lowers to a letter of those labels. *)
Definition lowerUnit (c : N) : N :=
  if ((65 <=? c) && (c <=? 90))%N then (c + 32)%N
  else if ((192 <=? c) && (c <=? 222) && negb (c =? 215))%N then (c + 32)%N
  else c.

Definition toLowerCase (s : jsstring) : jsstring := map lowerUnit s.

Fixpoint startsWith (s prefix : jsstring) : bool :=
  match prefix, s with
  | [], _ => true
  | p :: prefix', c :: s' => (c =? p)%N && startsWith s' prefix'
  | _ :: _, [] => false
  end.

(** [str.split(sep)] for a one-unit separator: never the empty list. *)
Fixpoint split (sep : N) (s : jsstring) : list jsstring :=
  match s with
  | [] => [[]]
  | c :: s' =>
      if (c =? sep)%N then [] :: split sep s'
      else match split sep s' with
           | [] => [[c]]
           | p :: ps => (c :: p) :: ps
           end
  end.

(** ** The tokenizer: [parseCSV] *)

Record csv_state := CsvState {
  rows : list (list jsstring);
  currentRow : list jsstring;
  currentField : jsstring;
  inQuotes : bool
}.

Definition csv_init : csv_state := CsvState [] [] [] false.

Definition add_to_field (st : csv_state) (s : jsstring) : csv_state :=
  CsvState (rows st) (currentRow st) (currentField st ++ s) (inQuotes st).

Definition set_inQuotes (st : csv_state) (b : bool) : csv_state :=
  CsvState (rows st) (currentRow st) (currentField st) b.

(** [currentRow.push(currentField.trim()); currentField = ''] *)
Definition push_field (st : csv_state) : csv_state :=
  CsvState (rows st) (currentRow st ++ [trim (currentField st)]) [] (inQuotes st).

(** The end of a line outside quotes. *)
Definition end_row (st : csv_state) : csv_state :=
  let row := currentRow st ++ [trim (currentField st)] in
  let rows' := if (0 <? length row)%nat then rows st ++ [row] else rows st in
  CsvState rows' [] [] (inQuotes st).

(** One iteration of the loop body at index [i]: [char] is [csvText[i]],
    [nextChar] is [csvText[i + 1]] ([None] past the end).  The boolean tells
    whether the body ran [i++], so that the next unit is skipped. *)
Definition csv_step (st : csv_state) (char : N) (nextChar : option N)
  : csv_state * bool :=
  if inQuotes st then
    if (char =? QUOTE)%N then
      if bool_decide (nextChar = Some QUOTE)
      then (add_to_field st [QUOTE], true)
      else (set_inQuotes st false, false)
    else (add_to_field st [char], false)
  else
    if (char =? QUOTE)%N then (set_inQuotes st true, false)
    else if (char =? COMMA)%N then (push_field st, false)
    else if (char =? LF)%N || ((char =? CR)%N && bool_decide (nextChar = Some LF))
    then (end_row st, (char =? CR)%N)
    else (add_to_field st [char], false).

(** [csvText[i + 1]] when [rest] is what follows index [i] in a stretch of
    the input and [after] is the unit that follows the stretch. *)
Definition next_of (rest : jsstring) (after : option N) : option N :=
  match rest with [] => after | c :: _ => Some c end.

(** The [for] loop over a stretch [text] of the input; [after] is the unit
    that follows the stretch ([None] at the end of the input) and [skip] is
    set when the previous iteration advanced [i] past the next unit. *)
Fixpoint csv_loop (st : csv_state) (skip : bool) (text : jsstring)
    (after : option N) : csv_state * bool :=
  match text with
  | [] => (st, skip)
  | char :: rest =>
      if skip then csv_loop st false rest after
      else
        let '(st', skip') := csv_step st char (next_of rest after) in
        csv_loop st' skip' rest after
  end.

(** After the loop: push the last field and row. *)
Definition csv_finish (st : csv_state) : list (list jsstring) :=
  if truthy_str (currentField st) || (0 <? length (currentRow st))%nat
  then rows st ++ [currentRow st ++ [trim (currentField st)]]
  else rows st.

Definition parseCSV (csvText : jsstring) : list (list jsstring) :=
  csv_finish (fst (csv_loop csv_init false csvText None)).

(** A field's content written between quotes: every quote is doubled. *)
Definition escape_quotes (content : jsstring) : jsstring :=
  flat_map (fun c => if (c =? QUOTE)%N then [QUOTE; QUOTE] else [c]) content.

Definition quoted (content : jsstring) : jsstring :=
  QUOTE :: escape_quotes content ++ [QUOTE].

(** ** Numbers *)

(** A JavaScript number.  Finite values are exact rationals. *)
Inductive number :=
  | Fin (q : Qc)
  | Inf (negative : bool)
  | NaN.

(** The rational [q] in canonical form. *)
Definition qc (q : Q) : Qc := Q2Qc (Qred q).

Definition num_of_Z (z : Z) : number := Fin (qc (inject_Z z)).

Definition zero : number := num_of_Z 0.

Definition isNaN (n : number) : bool :=
  match n with NaN => true | _ => false end.

(** Truthiness of a number: 0 and NaN are falsy. *)
Definition truthy_num (n : number) : bool :=
  match n with
  | Fin q => negb (Qeq_bool (this q) 0)
  | Inf _ => true
  | NaN => false
  end.

(** [a + b] on numbers. *)
Definition num_add (a b : number) : number :=
  match a, b with
  | NaN, _ | _, NaN => NaN
  | Fin x, Fin y => Fin (qc (this x + this y))
  | Fin _, Inf s | Inf s, Fin _ => Inf s
  | Inf s, Inf t => if Bool.eqb s t then Inf s else NaN
  end.

Definition isDigit (c : N) : bool := ((48 <=? c) && (c <=? 57))%N.

(** The longest prefix of decimal digits, and what follows it. *)
Fixpoint span_digits (s : jsstring) : jsstring * jsstring :=
  match s with
  | c :: s' =>
      if isDigit c then let '(ds, r) := span_digits s' in (c :: ds, r)
      else ([], s)
  | [] => ([], [])
  end.

(** The value of a run of decimal digits. *)
Definition digits_value (ds : jsstring) : Z :=
  fold_left (fun acc d => 10 * acc + (Z.of_N d - 48))%Z ds 0%Z.

(** An optional sign: whether it is a minus, and what follows it. *)
Definition take_sign (s : jsstring) : bool * jsstring :=
  match s with
  | 43%N :: s' => (false, s')
  | 45%N :: s' => (true, s')
  | _ => (false, s)
  end.

(** [parseInt(s, 10)]: [None] is NaN. *)
Definition parseInt10 (s : jsstring) : option Z :=
  let '(neg, s1) := take_sign (trimStart s) in
  let '(ds, _) := span_digits s1 in
  match ds with
  | [] => None
  | _ => Some (if neg then - digits_value ds else digits_value ds)%Z
  end.

(** The exponent part [e±ddd] of a decimal literal, when it is complete. *)
Definition exponent_part (s : jsstring) : Z :=
  match s with
  | c :: s' =>
      if ((c =? 101) || (c =? 69))%N then
        let '(neg, s1) := take_sign s' in
        let '(ds, _) := span_digits s1 in
        match ds with
        | [] => 0
        | _ => if neg then - digits_value ds else digits_value ds
        end%Z
      else 0%Z
  | [] => 0%Z
  end.

(** [parseFloat(s)]: the value of the longest prefix of [s], after leading
    white space, that is a [StrDecimalLiteral]; NaN when there is none. *)
Definition parseFloat (s : jsstring) : number :=
  let '(neg, s1) := take_sign (trimStart s) in
  if startsWith s1 (js "Infinity") then Inf neg
  else
    let '(ip, r1) := span_digits s1 in
    let '(fp, r2) :=
      match r1 with
      | 46%N :: r1' => span_digits r1'
      | _ => ([], r1)
      end in
    match ip ++ fp with
    | [] => NaN
    | ds =>
        let e := (exponent_part r2 - Z.of_nat (length fp))%Z in
        let m := if neg then (- digits_value ds)%Z else digits_value ds in
        Fin (qc (inject_Z m * Qpower 10 e))
    end.

(** ** Numeric coercions *)

(** The units that [/[$\s,MXN]/gi] matches: the dollar sign, white space, the
    comma, and the letters M, X and N in either case. *)
Definition currency_noise (c : N) : Prop :=
  c = 36%N ∨ isWhiteSpace c = true ∨ c = 44%N
  ∨ c ∈ [77; 88; 78; 109; 120; 110]%N.

#[global] Instance currency_noise_dec c : Decision (currency_noise c).
Proof. unfold currency_noise. apply _. Defined.

(** [str.replace(/[$\s,MXN]/gi, '')] *)
Definition strip_currency (s : jsstring) : jsstring :=
  filter (fun c => ¬ currency_noise c) s.

(** The units that [/[%\s]/g] matches. *)
Definition percent_noise (c : N) : Prop :=
  c = 37%N ∨ isWhiteSpace c = true.

#[global] Instance percent_noise_dec c : Decision (percent_noise c).
Proof. unfold percent_noise. apply _. Defined.

(** [str.replace(/[%\s]/g, '')] *)
Definition strip_percent (s : jsstring) : jsstring :=
  filter (fun c => ¬ percent_noise c) s.

(** The text of a plain decimal number: an optional minus sign, the digits
    [ip], and either nothing more or a point and the digits [fp]. *)
Definition decimal_text (neg : bool) (ip : jsstring) (fp : option jsstring)
  : jsstring :=
  (if neg then [45%N] else []) ++ ip
  ++ match fp with Some ds => 46%N :: ds | None => [] end.

(** The number that such a text denotes. *)
Definition decimal_value (neg : bool) (ip : jsstring) (fp : option jsstring)
  : number :=
  let ds := default [] fp in
  let m := digits_value (ip ++ ds) in
  Fin (qc (inject_Z (if neg then - m else m)
           * Qpower 10 (- Z.of_nat (length ds)))).

(** [parseNumber(str)]; the argument is [None] when the cell is missing
    ([undefined]). *)
Definition parseNumber (str : option jsstring) : number :=
  match str with
  | None => zero
  | Some s =>
      if negb (truthy_str s) then zero
      else
        let cleaned := trim (strip_currency s) in
        if bool_decide (cleaned = []) || bool_decide (cleaned = js "-") then zero
        else
          let num := parseFloat cleaned in
          if isNaN num then zero else num
  end.

Definition parsePercent (str : option jsstring) : number :=
  match str with
  | None => zero
  | Some s =>
      if negb (truthy_str s) then zero
      else
        let cleaned := trim (strip_percent s) in
        let num := parseFloat cleaned in
        if isNaN num then zero else num
  end.

(** ** Dates *)

(** A [Date] object, by the constructor call that made it:
    [new Date(year, monthIndex, day)], a date in local time, or
    [new Date(str)] for a string that [Date.parse] maps to the time value
    [t]. *)
Inductive Date :=
  | DateLocal (year monthIndex day : Z)
  | DateOfTime (t : Z).

(** The three integers of a [/]-separated string, when it has exactly three
    parts and [parseInt] reads each of them. *)
Definition slash_parts (str : jsstring) : option (Z * Z * Z) :=
  let parts := split SLASH str in
  if (length parts =? 3)%nat then
    match parts !! 0%nat ≫= parseInt10,
          parts !! 1%nat ≫= parseInt10,
          parts !! 2%nat ≫= parseInt10 with
    | Some month, Some day, Some year => Some (month, day, year)
    | _, _, _ => None
    end
  else None.

(** [parseDate(str)].  [Date_parse] is the platform's [Date.parse], with
    [None] for NaN; the result [None] is [null]. *)
Definition parseDate (Date_parse : jsstring → option Z) (str : jsstring)
  : option Date :=
  if negb (truthy_str str) then None
  else
    match slash_parts str with
    | Some (month, day, year) => Some (DateLocal year (month - 1) day)
    | None =>
        match Date_parse str with
        | Some t => Some (DateOfTime t)
        | None => None
        end
    end.

(** ** Expenses *)

Record Expense := mkExpense {
  date : jsstring;
  dateObj : option Date;
  category : jsstring;
  subcategory : jsstring;
  amount : number
}.

(** [(cell || dflt)] for a cell that may be missing or empty. *)
Definition or_default (cell : option jsstring) (dflt : jsstring) : jsstring :=
  match cell with
  | Some s => if truthy_str s then s else dflt
  | None => dflt
  end.

(** The body of the loop of [parseExpenses] for one row: the record it
    pushes, or [None] when it runs [continue]. *)
Definition expense_of_row (Date_parse : jsstring → option Z)
    (row : list jsstring) : option Expense :=
  if (length row <? 5)%nat then None
  else
    let dateStr := trim (or_default (row !! 0%nat) []) in
    let category := trim (or_default (row !! 1%nat) []) in
    let subcategory := trim (or_default (row !! 2%nat) []) in
    let amount := parseNumber (row !! 4%nat) in
    if negb (truthy_str category) && negb (truthy_num amount)
    then None
    else Some (mkExpense dateStr (parseDate Date_parse dateStr)
                         category subcategory amount).

(** [parseExpenses(rows)]: the loop starts at index 1, after the header. *)
Definition parseExpenses (Date_parse : jsstring → option Z)
    (rows : list (list jsstring)) : list Expense :=
  omap (expense_of_row Date_parse) (drop 1 rows).

(** ** Category normalizer *)

Definition normalizeCategory (cat : jsstring) : jsstring :=
  if negb (truthy_str cat) then []
  else
    let lower := toLowerCase (trim cat) in
    if startsWith lower (js "hard") then js "Hard Cost"
    else if startsWith lower (js "soft") then js "Soft Cost"
    else if startsWith lower (js "terreno") then js "Terreno"
    else trim cat.

(** ** Plain objects used as dictionaries *)

(** The property names every plain object inherits from
    [Object.prototype]. *)
Definition OBJECT_PROTOTYPE_KEYS : list jsstring :=
  [js "constructor"; js "__defineGetter__"; js "__defineSetter__";
   js "hasOwnProperty"; js "__lookupGetter__"; js "__lookupSetter__";
   js "isPrototypeOf"; js "propertyIsEnumerable"; js "toString";
   js "valueOf"; js "__proto__"; js "toLocaleString"].

Definition PROTO : jsstring := js "__proto__".

(** What a dictionary of the summary holds under a key: a number, or the
    text that [+=] makes of an inherited member of [Object.prototype]
    followed by the decimal forms of the numbers added to it since. *)
Inductive jsval :=
  | VNum (n : number)
  | VText (member : jsstring) (added : list number).

(** The result of reading [obj[key]]. *)
Inductive lookup :=
  | Own (v : jsval)
  | Inherited (member : jsstring)
  | Undefined.

Definition obj_get (obj : gmap jsstring jsval) (key : jsstring) : lookup :=
  match obj !! key with
  | Some v => Own v
  | None =>
      if bool_decide (key ∈ OBJECT_PROTOTYPE_KEYS) then Inherited key
      else Undefined
  end.

(** [obj[key] = v] for a [v] that is not an object: the setter of
    [__proto__] ignores it, any other key becomes an own property. *)
Definition obj_set (obj : gmap jsstring jsval) (key : jsstring) (v : jsval)
  : gmap jsstring jsval :=
  if bool_decide (key = PROTO) then obj else <[key := v]> obj.

Definition truthy (r : lookup) : bool :=
  match r with
  | Own (VNum n) => truthy_num n
  | Own (VText _ _) => true
  | Inherited _ => true
  | Undefined => false
  end.

(** [current + n] for the value read from a dictionary. *)
Definition plus (current : lookup) (n : number) : jsval :=
  match current with
  | Own (VNum m) => VNum (num_add m n)
  | Own (VText member added) => VText member (added ++ [n])
  | Inherited member => VText member [n]
  | Undefined => VNum NaN
  end.

(** [if (!obj[key]) obj[key] = 0; obj[key] += n;] *)
Definition accumulate (obj : gmap jsstring jsval) (key : jsstring) (n : number)
  : gmap jsstring jsval :=
  let obj1 := if negb (truthy (obj_get obj key))
              then obj_set obj key (VNum zero) else obj in
  obj_set obj1 key (plus (obj_get obj1 key) n).

(** ** Expense aggregator *)

Record ExpenseSummary := mkSummary {
  total : number;
  byCategory : gmap jsstring jsval;
  bySubcategory : gmap jsstring jsval
}.

(** The body of the loop of [calculateExpenseSummary]. *)
Definition summary_step (summary : ExpenseSummary) (exp : Expense)
  : ExpenseSummary :=
  let catKey := normalizeCategory (category exp) in
  let subKey := catKey ++ [PIPE] ++ subcategory exp in
  mkSummary (num_add (total summary) (amount exp))
            (accumulate (byCategory summary) catKey (amount exp))
            (accumulate (bySubcategory summary) subKey (amount exp)).

Definition calculateExpenseSummary (expenses : list Expense) : ExpenseSummary :=
  fold_left summary_step expenses (mkSummary zero ∅ ∅).

(** ** Reading cells of a sheet *)

(** The outcome of code that may read a property of [undefined]: a value,
    or the [TypeError] that the read throws. *)
Inductive res (A : Type) :=
  | Ok (a : A)
  | TypeError.
Arguments Ok {A} a.
Arguments TypeError {A}.

#[global] Instance res_ret : MRet res := fun A a => Ok a.
#[global] Instance res_bind : MBind res := fun A B f m =>
  match m with
  | Ok a => f a
  | TypeError => TypeError
  end.

(** [rows[idx]] for an integer [idx], which may be the sentinel [-1]. *)
Definition row_at (rows : list (list jsstring)) (idx : Z)
  : option (list jsstring) :=
  if (idx <? 0)%Z then None else rows !! Z.to_nat idx.

(** [rows[idx][col]]: throws when [rows[idx]] is [undefined]. *)
Definition cell (rows : list (list jsstring)) (idx : Z) (col : nat)
  : res (option jsstring) :=
  match row_at rows idx with
  | Some row => Ok (row !! col)
  | None => TypeError
  end.

(** ** The capital sheet *)

Record UseOfCapital := mkUse { use_amount : number; pct : number }.

Record Investor := mkInvestor { name : jsstring; investor_amount : number }.

Record Indicator := mkIndicator { value : number; label : jsstring }.

Record Capital := mkCapital {
  uses_hardCosts : option UseOfCapital;
  uses_softCosts : option UseOfCapital;
  uses_terreno : option UseOfCapital;
  investors : list Investor;
  totalIncome : option Indicator;
  projectCost : option Indicator;
  profit : option Indicator;
  margin : option Indicator;
  capitalContributed : option Indicator;
  totalReturn : option Indicator;
  roi : option Indicator;
  capitalMultiple : option Indicator
}.

(** [if (rows[i]) { uses.x = { amount: parseNumber(rows[i][2]),
    pct: parsePercent(rows[i][3]) } }] *)
Definition use_at (rows : list (list jsstring)) (i : Z)
  : res (option UseOfCapital) :=
  match row_at rows i with
  | Some _ =>
      a ← cell rows i 2;
      p ← cell rows i 3;
      mret (Some (mkUse (parseNumber a) (parsePercent p)))
  | None => mret None
  end.

(** [if (rows[i]) { x = parse(rows[i][2]);
    xLabel = (rows[i][0] || dflt).trim() }] *)
Definition indicator_at (parse : option jsstring → number)
    (rows : list (list jsstring)) (i : Z) (dflt : jsstring)
  : res (option Indicator) :=
  match row_at rows i with
  | Some _ =>
      v ← cell rows i 2;
      l ← cell rows i 0;
      mret (Some (mkIndicator (parse v) (trim (or_default l dflt))))
  | None => mret None
  end.

(** The investor loop, [for (let i = 6; i < 11 && i < rows.length; i++)],
    over the values [i] still to visit; [break] ends the list. *)
Fixpoint investors_loop (rows : list (list jsstring)) (indices : list nat)
  : list Investor :=
  match indices with
  | [] => []
  | i :: indices' =>
      if (i <? 11)%nat && (i <? length rows)%nat then
        match rows !! i with
        | None => []
        | Some row =>
            match row !! 0%nat with
            | None => []
            | Some cell0 =>
                if negb (truthy_str cell0) || bool_decide (trim cell0 = [])
                then []
                else mkInvestor (trim cell0) (parseNumber (row !! 2%nat))
                       :: investors_loop rows indices'
            end
        end
      else []
  end.

Definition parseCapital (rows : list (list jsstring)) : res Capital :=
  hard ← use_at rows 1;
  soft ← use_at rows 2;
  terr ← use_at rows 3;
  let invs := investors_loop rows (seq 6 5) in
  income ← indicator_at parseNumber rows 12 (js "Ingresos Totales");
  cost ← indicator_at parseNumber rows 13 (js "Costo del Proyecto");
  prof ← indicator_at parseNumber rows 14 (js "Utilidad");
  marg ← indicator_at parsePercent rows 15 (js "Margen de Utilidad");
  contributed ← indicator_at parseNumber rows 18 (js "Capital Aportado");
  ret ← indicator_at parseNumber rows 19 (js "Retorno Total");
  roi_ ← indicator_at parsePercent rows 20 (js "ROI");
  multiple ← indicator_at parseNumber rows 21
               (js "M" ++ [250%N] ++ js "ltiplo de Capital");
  mret (mkCapital hard soft terr invs income cost prof marg
                  contributed ret roi_ multiple).

(** ** The budget sheet *)

Record House := mkHouse {
  house_name : jsstring;
  sqm : number;
  pricePerSqm : number;
  totalCommercial : number;
  netIncome : number
}.

Record LineItem := mkLineItem { item_name : jsstring; item_amount : number }.

Record Budget := mkBudget {
  houses : list House;
  hardCosts_total : option number;
  hardCosts_construction : option number;
  softCosts_items : list LineItem;
  softCosts_total : option number;
  terreno_items : list LineItem;
  terreno_total : option number
}.

(** [arr.findIndex(p)], with [i] the index of the head of [arr]. *)
Fixpoint findIndex_from {A} (p : A → bool) (arr : list A) (i : Z) : Z :=
  match arr with
  | [] => (-1)%Z
  | x :: arr' => if p x then i else findIndex_from p arr' (i + 1)%Z
  end.

Definition findIndex {A} (p : A → bool) (arr : list A) : Z :=
  findIndex_from p arr 0%Z.

(** [r && r[1] && r[1].trim().toLowerCase().startsWith(label.toLowerCase())] *)
Definition row_has_label (label : jsstring) (r : list jsstring) : bool :=
  match r !! 1%nat with
  | Some b => truthy_str b
              && startsWith (toLowerCase (trim b)) (toLowerCase label)
  | None => false
  end.

Definition findRow (rows : list (list jsstring)) (label : jsstring) : Z :=
  findIndex (row_has_label label) rows.

(** The loop over the two house rows. *)
Fixpoint houses_loop (rows : list (list jsstring)) (indices : list Z)
  : res (list House) :=
  match indices with
  | [] => mret []
  | idx :: indices' =>
      if (0 <=? idx)%Z && bool_decide (is_Some (row_at rows idx)) then
        b ← cell rows idx 1;
        f ← cell rows idx 5;
        h ← cell rows idx 7;
        j ← cell rows idx 9;
        k ← cell rows idx 10;
        rest ← houses_loop rows indices';
        mret (mkHouse (trim (or_default b [])) (parseNumber f) (parseNumber h)
                      (parseNumber j) (parseNumber k) :: rest)
      else houses_loop rows indices'
  end.

(** The loops over the labels of the line items. *)
Fixpoint items_loop (rows : list (list jsstring)) (labels : list jsstring)
  : res (list LineItem) :=
  match labels with
  | [] => mret []
  | lbl :: labels' =>
      let idx := findRow rows lbl in
      if (0 <=? idx)%Z && bool_decide (is_Some (row_at rows idx)) then
        b ← cell rows idx 1;
        k ← cell rows idx 10;
        rest ← items_loop rows labels';
        mret (mkLineItem (trim (or_default b lbl)) (parseNumber k) :: rest)
      else items_loop rows labels'
  end.

(** [if (idx >= 0) { x = parseNumber(rows[idx][10]) }] for the row found
    under [lbl]. *)
Definition amount_under (rows : list (list jsstring)) (lbl : jsstring)
  : res (option number) :=
  let idx := findRow rows lbl in
  if (0 <=? idx)%Z then
    k ← cell rows idx 10;
    mret (Some (parseNumber k))
  else mret None.

Definition softLabels : list jsstring :=
  [js "Fee Administracion"; js "Arquitectura";
   js "Tr" ++ [225%N] ++ js "mites / Permisos"; js "Legal / Fiscal";
   js "Ingenier" ++ [237%N] ++ js "as / Estudios"; js "IVA Soft Cost"].

Definition terrenoLabels : list jsstring := [js "Lote 1"; js "Lote 2"; js "ISAI"].

Definition parseBudget (rows : list (list jsstring)) : res Budget :=
  let casa1Idx := findRow rows (js "Casa 1") in
  let casa2Idx := findRow rows (js "Casa 2") in
  hs ← houses_loop rows [casa1Idx; casa2Idx];
  hardTotal ← amount_under rows (js "Total de Hard Cost");
  construction ← amount_under rows (js "Construcci" ++ [243%N] ++ js "n");
  softItems ← items_loop rows softLabels;
  softTotal ← amount_under rows (js "Total de Soft Cost");
  terrItems ← items_loop rows terrenoLabels;
  terrTotal ← amount_under rows (js "Valor de Terreno");
  mret (mkBudget hs hardTotal construction softItems softTotal
                 terrItems terrTotal).

(** ** The network *)

(** What a promise settles to: a value, or a rejection with an error. *)
Inductive js_error :=
  | Error (message : jsstring)
  | PropertyOfUndefined.

Inductive promise (A : Type) :=
  | Fulfilled (a : A)
  | Rejected (e : js_error).
Arguments Fulfilled {A} a.
Arguments Rejected {A} e.

(** The reply to one [fetch(url)]: the request fails in transport, or a
    response arrives, whose body is read by [response.text()], which can fail
    in transport as well. *)
Inductive body_reply :=
  | BodyText (text : jsstring)
  | BodyError (message : jsstring).

Inductive fetch_reply :=
  | NetworkError (message : jsstring)
  | Response (status : N) (statusText : jsstring) (body : body_reply).

(** A promise together with the instant at which it settles. *)
Record settled (A : Type) := mkSettled { when : N; result : promise A }.
Arguments mkSettled {A} when result.
Arguments when {A} s.
Arguments result {A} s.

(** The network during one call: what the request issued at position [i] of
    the [Promise.all] array for [url] is answered, and when. *)
Definition Network := nat → jsstring → N * fetch_reply.

(** [response.ok]: the status is in the range 200-299. *)
Definition response_ok (status : N) : bool :=
  ((200 <=? status) && (status <=? 299))%N.

(** The decimal form of a status code. *)
Definition decimal (n : N) : jsstring :=
  js (NilEmpty.string_of_uint (N.to_uint n)).

(** [fetchCSV(url)] *)
Definition fetchCSV (reply : fetch_reply) : promise (list (list jsstring)) :=
  match reply with
  | NetworkError message => Rejected (Error message)
  | Response status statusText body =>
      if negb (response_ok status)
      then Rejected (Error (js "HTTP " ++ decimal status ++ js ": " ++ statusText))
      else match body with
           | BodyError message => Rejected (Error message)
           | BodyText text => Fulfilled (parseCSV text)
           end
  end.

(** The rejection that settles first among [ps] (the earlier position wins
    when two settle at the same instant). *)
Fixpoint first_rejection {A} (ps : list (settled A)) : option (N * js_error) :=
  match ps with
  | [] => None
  | p :: ps' =>
      match result p, first_rejection ps' with
      | Rejected e, Some (t', e') =>
          if (t' <? when p)%N then Some (t', e') else Some (when p, e)
      | Rejected e, None => Some (when p, e)
      | Fulfilled _, later => later
      end
  end.

Definition fulfilled_value {A} (p : settled A) : option A :=
  match result p with
  | Fulfilled a => Some a
  | Rejected _ => None
  end.

(** [Promise.all(ps)]: the values in the order of [ps] when all are
    fulfilled, the first rejection otherwise. *)
Definition Promise_all {A} (ps : list (settled A)) : promise (list A) :=
  match first_rejection ps with
  | Some (_, e) => Rejected e
  | None => Fulfilled (omap fulfilled_value ps)
  end.

(** ** The cache and [fetchAllData] *)

Record Project := mkProject {
  key : jsstring;
  sheets_budget : jsstring;
  sheets_desglose : jsstring;
  sheets_capital : jsstring
}.

Record Snapshot := mkSnapshot {
  budget : Budget;
  expenses : list Expense;
  capital : Capital;
  fetchedAt : Z
}.

Definition SNAPSHOT_KEYS : list jsstring :=
  [js "budget"; js "expenses"; js "capital"; js "fetchedAt"].

(** The object [this.cache]: its own properties, and the snapshot that an
    assignment to [__proto__] installed as its prototype, if any (the
    prototype is [Object.prototype] otherwise). *)
Record CacheObject := mkCache {
  own : gmap jsstring Snapshot;
  proto : option Snapshot
}.

(** The result of reading [this.cache[key]]: a snapshot, another (truthy)
    value found along the prototype chain under [key], or [undefined]. *)
Inductive cached :=
  | Entry (s : Snapshot)
  | Foreign (key : jsstring)
  | Absent.

Definition cache_get (c : CacheObject) (k : jsstring) : cached :=
  match own c !! k with
  | Some s => Entry s
  | None =>
      if bool_decide (k = PROTO) then
        match proto c with
        | Some s => Entry s
        | None => Foreign k
        end
      else if bool_decide (k ∈ OBJECT_PROTOTYPE_KEYS) then Foreign k
      else match proto c with
           | Some _ => if bool_decide (k ∈ SNAPSHOT_KEYS) then Foreign k else Absent
           | None => Absent
           end
  end.

(** [this.cache[key] = parsed] *)
Definition cache_set (c : CacheObject) (k : jsstring) (parsed : Snapshot)
  : CacheObject :=
  if bool_decide (k = PROTO) then mkCache (own c) (Some parsed)
  else mkCache (<[k := parsed]> (own c)) (proto c).

Record DataService := mkDataService {
  cache : CacheObject;
  cacheTimestamp : option Z
}.

Definition CACHE_TTL : Z := 5 * 60 * 1000.

Definition DataService_init : DataService :=
  mkDataService (mkCache ∅ None) None.

Definition clearCache (this : DataService) : DataService :=
  mkDataService (mkCache ∅ None) None.

(** [this.cache[project.key] && this.cacheTimestamp &&
    (now - this.cacheTimestamp) < this.CACHE_TTL] *)
Definition cache_valid (this : DataService) (project : Project) (now : Z)
  : bool :=
  match cache_get (cache this) (key project), cacheTimestamp this with
  | Absent, _ => false
  | _, None => false
  | _, Some ts => negb (ts =? 0)%Z && (now - ts <? CACHE_TTL)%Z
  end.

(** What one call of [fetchAllData] does: the promise it returns, the state
    it leaves, and the requests it issued. *)
Record Fetched := mkFetched {
  returned : promise cached;
  after : DataService;
  requests : list jsstring
}.

(** [fetchAllData(project)], called in state [this] when [Date.now()] is
    [now]; [date_now] is what [new Date()] reads once the sheets are in. *)
Definition fetchAllData (Date_parse : jsstring → option Z) (net : Network)
    (now date_now : Z) (this : DataService) (project : Project) : Fetched :=
  if cache_valid this project now
  then mkFetched (Fulfilled (cache_get (cache this) (key project))) this []
  else
    let urls := [sheets_budget project; sheets_desglose project;
                 sheets_capital project] in
    let issue i url := let '(t, reply) := net i url in
                       mkSettled t (fetchCSV reply) in
    match Promise_all (imap issue urls) with
    | Rejected e => mkFetched (Rejected e) this urls
    | Fulfilled sheets =>
        let sheet i := default [] (sheets !! i) in
        match parseBudget (sheet 0%nat) with
        | TypeError => mkFetched (Rejected PropertyOfUndefined) this urls
        | Ok b =>
            let es := parseExpenses Date_parse (sheet 1%nat) in
            match parseCapital (sheet 2%nat) with
            | TypeError => mkFetched (Rejected PropertyOfUndefined) this urls
            | Ok c =>
                let parsed := mkSnapshot b es c date_now in
                mkFetched (Fulfilled (Entry parsed))
                  (mkDataService (cache_set (cache this) (key project) parsed)
                                 (Some now))
                  urls
            end
        end
    end.

(** ** Vocabulary of the statements *)

(** A string that [trim] leaves as it is. *)
Definition trimmed (s : jsstring) : Prop :=
  trimStart s = s ∧ trimStart (rev s) = rev s.



(** The keys under which [calculateExpenseSummary] counts an expense. *)
Definition category_key (e : Expense) : jsstring :=
  normalizeCategory (category e).

Definition subcategory_key (e : Expense) : jsstring :=
  category_key e ++ [PIPE] ++ subcategory e.




(** A dictionary of [calculateExpenseSummary] after the loop, seen on its
    own: [key] is the key under which an expense is counted. *)
Definition accumulate_by (key : Expense → jsstring) (es : list Expense)
    (obj : gmap jsstring jsval) : gmap jsstring jsval :=
  fold_left (fun obj e => accumulate obj (key e) (amount e)) es obj.

(** A unit that has no special meaning to the tokenizer. *)
Definition plain_unit (c : N) : Prop :=
  c ≠ QUOTE ∧ c ≠ COMMA ∧ c ≠ LF ∧ c ≠ CR.

(** The fields of a line, written with commas between them. *)
Fixpoint join_fields (fields : list jsstring) : jsstring :=
  match fields with
  | [] => []
  | [f] => f
  | f :: fields' => f ++ COMMA :: join_fields fields'
  end.

(** The end of a line: a line feed, after a carriage return or not. *)
Definition line_break (crlf : bool) : jsstring :=
  if crlf then [CR; LF] else [LF].

(** A text of complete lines, each with its line break, followed by the
    fields [last] that no line break ends. *)
Definition csv_text (lines : list (list jsstring * bool))
    (last : list jsstring) : jsstring :=
  concat (map (fun l => join_fields l.1 ++ line_break l.2) lines)
  ++ join_fields last.

(** The rows made so far and the current row hold trimmed fields, and no
    row made so far is empty. *)
Definition csv_inv (st : csv_state) : Prop :=
  Forall (fun row => row ≠ [] ∧ Forall trimmed row) (rows st)
  ∧ Forall trimmed (currentRow st).

(** What [parseCapital] makes of the row of a use of capital, of an
    indicator and of an investor. *)
Definition use_of_row (row : list jsstring) : UseOfCapital :=
  mkUse (parseNumber (row !! 2%nat)) (parsePercent (row !! 3%nat)).

Definition indicator_of_row (parse : option jsstring → number)
    (dflt : jsstring) (row : list jsstring) : Indicator :=
  mkIndicator (parse (row !! 2%nat)) (trim (or_default (row !! 0%nat) dflt)).

Definition investor_of_row (row : list jsstring) : Investor :=
  mkInvestor (trim (default [] (row !! 0%nat))) (parseNumber (row !! 2%nat)).

(** A row whose first cell holds a name: it is there and not blank. *)
Definition has_name (row : list jsstring) : bool :=
  match row !! 0%nat with
  | Some c => negb (bool_decide (trim c = []))
  | None => false
  end.

(** The longest prefix of a list whose elements satisfy [p]. *)
Fixpoint take_while {A} (p : A → bool) (l : list A) : list A :=
  match l with
  | x :: l' => if p x then x :: take_while p l' else []
  | [] => []
  end.

(** What [parseBudget] makes of the row found under a label. *)
Definition house_of_row (row : list jsstring) : House :=
  mkHouse (trim (or_default (row !! 1%nat) []))
          (parseNumber (row !! 5%nat)) (parseNumber (row !! 7%nat))
          (parseNumber (row !! 9%nat)) (parseNumber (row !! 10%nat)).

Definition item_of_row (lbl : jsstring) (row : list jsstring) : LineItem :=
  mkLineItem (trim (or_default (row !! 1%nat) lbl))
             (parseNumber (row !! 10%nat)).

(** The first row whose cell B starts with [lbl], case apart. *)
Definition first_labelled (rows : list (list jsstring)) (lbl : jsstring)
  : option (list jsstring) :=
  find (row_has_label lbl) rows.

(** The three sheets of a project, in the order in which [fetchAllData]
    requests them. *)
Definition sheet_urls (project : Project) : list jsstring :=
  [sheets_budget project; sheets_desglose project; sheets_capital project].

(** A state that calls of [fetchAllData] and [clearCache] can reach from
    the initial one: [__proto__] is never an own property of the cache. *)
Definition reachable_cache (this : DataService) : Prop :=
  own (cache this) !! PROTO = None.

(** A reply that [fetchCSV] turns into rows: a response with a status in
    200-299 whose body arrives. *)
Definition good_reply (reply : fetch_reply) : option jsstring :=
  match reply with
  | Response status _ (BodyText text) =>
      if response_ok status then Some text else None
  | _ => None
  end.

(** ** Sample inputs *)

(** A network on which every sheet arrives, one that is down, and one on
    which the second sheet is not found. *)
Definition sample_net : Network :=
  fun i _ => (N.of_nat i, Response 200 (js "OK") (BodyText (js "a,b"))).

Definition offline_net : Network :=
  fun _ _ => (0%N, NetworkError (js "offline")).

Definition failing_net : Network :=
  fun i _ =>
    if (i =? 1)%nat
    then (7%N, Response 404 (js "Not Found") (BodyText []))
    else (9%N, Response 200 (js "OK") (BodyText (js "a,b"))).

Definition sample_project (k : string) : Project :=
  mkProject (js k) (js "u1") (js "u2") (js "u3").


Definition sample_capital_rows : list (list jsstring) :=
  replicate 6 [js "x"]
  ++ [[js " Ana "; []; js "$100"]; [js "Bob"]; [js "  "];
      [js "Zed"; []; js "5"]].


Definition sample_sheet : jsstring :=
  csv_text [([js "Fecha"; js "Cat"; js "Sub"; js "Det"; js "Monto"], false)]
    [js "1/2/2024"; js " Hard Cost "; js "Obra"; js "x"; js "$5"].

(** * Properties *)

(** ** The tokenizer *)

(** The loop over a text in two stretches. *)
Lemma csv_loop_app st skip a b after :
  csv_loop st skip (a ++ b) after
  = let '(st', skip') := csv_loop st skip a (next_of b after) in
    csv_loop st' skip' b after.
Proof.
  revert st skip. induction a as [|c a IH]; intros st skip; simpl.
  - reflexivity.
  - destruct skip; [apply IH|].
    replace (next_of (a ++ b) after) with (next_of a (next_of b after))
      by (destruct a; reflexivity).
    destruct (csv_step st c _) as [st' skip']. apply IH.
Qed.

(** Inside quotes the loop copies the content of the field, one unit for
    each doubled quote, up to the closing quote. *)
Lemma csv_loop_escaped st content rest after :
  inQuotes st = true →
  next_of rest after ≠ Some QUOTE →
  csv_loop st false (escape_quotes content ++ QUOTE :: rest) after
  = csv_loop (set_inQuotes (add_to_field st content) false) false rest after.
Proof.
  revert st. induction content as [|c content IH]; intros st Hq Hnext.
  - simpl. unfold csv_step. rewrite Hq. simpl.
    rewrite bool_decide_eq_false_2 by exact Hnext.
    unfold add_to_field. rewrite app_nil_r. reflexivity.
  - unfold escape_quotes. simpl. fold (escape_quotes content).
    destruct (N.eqb_spec c QUOTE) as [->|Hc].
    + simpl. unfold csv_step at 1. rewrite Hq. simpl.
      rewrite IH by done.
      unfold add_to_field, set_inQuotes; simpl. by rewrite <- app_assoc.
    + simpl. unfold csv_step at 1. rewrite Hq.
      rewrite (proj2 (N.eqb_neq c QUOTE)) by done.
      rewrite IH by done.
      unfold add_to_field, set_inQuotes; simpl. by rewrite <- app_assoc.
Qed.

Lemma csv_loop_quoted st content rest after :
  inQuotes st = false →
  next_of rest after ≠ Some QUOTE →
  csv_loop st false (quoted content ++ rest) after
  = csv_loop (add_to_field st content) false rest after.
Proof.
  intros Hq Hnext. unfold quoted. simpl.
  unfold csv_step. rewrite Hq. simpl.
  rewrite <- app_assoc. simpl.
  rewrite csv_loop_escaped by done.
  destruct st as [rs row field q]; simpl in *; subst q. reflexivity.
Qed.

(** [trim] keeps every unit that is not white space. *)
Lemma trimStart_keeps (s : jsstring) c :
  c ∈ s → isWhiteSpace c = false → c ∈ trimStart s.
Proof.
  induction s as [|d s IH]; intros Hin Hc; simpl; [done|].
  destruct (isWhiteSpace d) eqn:Hd; [|done].
  apply elem_of_cons in Hin as [->|Hin]; [congruence|by apply IH].
Qed.

Lemma trim_keeps (s : jsstring) c :
  c ∈ s → isWhiteSpace c = false → c ∈ trim s.
Proof.
  intros Hin Hc. unfold trim, trimEnd.
  apply list_elem_of_In, in_rev, list_elem_of_In.
  rewrite rev_involutive. apply trimStart_keeps; [|done].
  apply list_elem_of_In. rewrite <- in_rev.
  by apply list_elem_of_In, trimStart_keeps.
Qed.

(** C1.  Quoted fields.  Wherever a quoted field starts (the loop reaches
    its opening quote outside quotes, state [st]), the loop reads the whole
    of it, up to its closing quote, as the content of the field: every unit
    between the quotes, a comma or a newline as any other, and one quote for
    each doubled quote, is added to the current field, and neither the rows
    nor the current row change.  A row that is one quoted field is parsed to
    exactly one field, the trimmed content, in which every unit of the content
    that is not white space (so the comma and the quote) is kept; thus the
    quoted field written with a comma and a doubled quote between [a] and
    [b] is read as one field: [a], a comma, one quote, [b]. *)
Theorem parseCSV_quoted_fields :
  (∀ pre content rest st,
     csv_loop csv_init false pre (Some QUOTE) = (st, false) →
     inQuotes st = false →
     head rest ≠ Some QUOTE →
     parseCSV (pre ++ quoted content ++ rest)
     = csv_finish (fst (csv_loop (add_to_field st content) false rest None)))
  ∧ (∀ content, content ≠ [] → parseCSV (quoted content) = [[trim content]])
  ∧ (∀ content c, c ∈ content → isWhiteSpace c = false → c ∈ trim content)
  ∧ parseCSV (QUOTE :: js "a," ++ [QUOTE; QUOTE] ++ js "b" ++ [QUOTE])
    = [[js "a," ++ [QUOTE] ++ js "b"]]
  ∧ parseCSV (QUOTE :: js "x" ++ [LF] ++ js "y" ++ [QUOTE] ++ js ",z")
    = [[js "x" ++ [LF] ++ js "y"; js "z"]].
Proof.
  split; [|split; [|split; [|split]]].
  - intros pre content rest st Hpre Hq Hrest. unfold parseCSV.
    rewrite csv_loop_app.
    replace (next_of (quoted content ++ rest) None) with (Some QUOTE)
      by reflexivity.
    rewrite Hpre. rewrite csv_loop_quoted; [done|done|].
    by destruct rest.
  - intros content Hne. unfold parseCSV.
    rewrite <- (app_nil_r (quoted content)).
    rewrite csv_loop_quoted by done.
    simpl. unfold csv_finish. simpl.
    by destruct content.
  - intros content c. apply trim_keeps.
  - reflexivity.
  - reflexivity.
Qed.

Lemma parseCSV_quoted_fields_witness :
  (csv_loop csv_init false (js "k,") (Some QUOTE)
     = (CsvState [] [js "k"] [] false, false)
   ∧ head (js ",z") ≠ Some QUOTE
   ∧ parseCSV (js "k," ++ quoted (js "a,b") ++ js ",z")
     = csv_finish (fst (csv_loop
         (add_to_field (CsvState [] [js "k"] [] false) (js "a,b"))
         false (js ",z") None)))
  ∧ (js "a,b" ≠ [] ∧ parseCSV (quoted (js "a,b")) = [[trim (js "a,b")]])
  ∧ (COMMA ∈ js "a,b" ∧ isWhiteSpace COMMA = false ∧ COMMA ∈ trim (js "a,b")).
Proof.
  pose proof parseCSV_quoted_fields as (H1 & H2 & H3 & _).
  assert (Hpre : csv_loop csv_init false (js "k,") (Some QUOTE)
                 = (CsvState [] [js "k"] [] false, false)) by reflexivity.
  assert (Hrest : head (js ",z") ≠ Some QUOTE) by (simpl; discriminate).
  assert (Hne : js "a,b" ≠ []) by (simpl; discriminate).
  assert (Hin : COMMA ∈ js "a,b") by (vm_compute; set_solver).
  split; [|split].
  - split; [exact Hpre|split; [exact Hrest|]].
    exact (H1 _ (js "a,b") _ _ Hpre eq_refl Hrest).
  - split; [exact Hne|exact (H2 _ Hne)].
  - split; [exact Hin|split; [reflexivity|]].
    exact (H3 _ _ Hin eq_refl).
Defined.

(** ** Numeric coercions *)

Lemma digit_not_space c : isDigit c = true → isWhiteSpace c = false.
Proof.
  unfold isDigit, isWhiteSpace. intros H.
  apply andb_true_iff in H as [H1%N.leb_le H2%N.leb_le].
  apply orb_false_iff. split.
  - apply bool_decide_eq_false_2. rewrite !elem_of_cons, elem_of_nil. lia.
  - apply andb_false_iff. left. apply N.leb_gt. lia.
Qed.

Lemma digit_not_currency_noise c : isDigit c = true → ¬ currency_noise c.
Proof.
  intros H [?|[Hw|[?|Hin]]].
  - subst; discriminate.
  - rewrite digit_not_space in Hw; done.
  - subst; discriminate.
  - unfold isDigit in H. apply andb_true_iff in H as [H1%N.leb_le H2%N.leb_le].
    rewrite !elem_of_cons, elem_of_nil in Hin. lia.
Qed.

Lemma digit_not_percent_noise c : isDigit c = true → ¬ percent_noise c.
Proof.
  intros H [?|Hw].
  - subst; discriminate.
  - rewrite digit_not_space in Hw; done.
Qed.

Lemma span_digits_app ds rest :
  Forall (fun c => isDigit c = true) ds →
  (∀ c, head rest = Some c → isDigit c = false) →
  span_digits (ds ++ rest) = (ds, rest).
Proof.
  intros Hds Hrest. induction Hds as [|d ds Hd _ IH]; simpl.
  - destruct rest as [|c rest]; [done|]. simpl. by rewrite (Hrest c).
  - by rewrite Hd, IH.
Qed.

Lemma filter_keep_all {A} (P : A → Prop) `{∀ x, Decision (P x)} (l : list A) :
  Forall P l → filter P l = l.
Proof.
  induction 1 as [|x l Hx _ IH]; [done|].
  rewrite filter_cons, decide_True by done. by rewrite IH.
Qed.

Lemma filter_drop_all {A} (P : A → Prop) `{∀ x, Decision (P x)} (l : list A) :
  Forall (fun x => ¬ P x) l → filter P l = [].
Proof.
  induction 1 as [|x l Hx _ IH]; [done|].
  rewrite filter_cons, decide_False by done. by rewrite IH.
Qed.

Lemma trimStart_id (s : jsstring) :
  Forall (fun c => isWhiteSpace c = false) s → trimStart s = s.
Proof. destruct 1 as [|c s Hc _]; simpl; [done|by rewrite Hc]. Qed.

Lemma trim_id (s : jsstring) :
  Forall (fun c => isWhiteSpace c = false) s → trim s = s.
Proof.
  intros Hs. unfold trim, trimEnd. rewrite (trimStart_id s Hs).
  rewrite trimStart_id; [apply rev_involutive|].
  apply Forall_forall. intros c Hc. rewrite Forall_forall in Hs.
  apply Hs, in_rev, Hc.
Qed.

(** What is left after stripping holds no white space. *)
Lemma strip_currency_no_space s :
  Forall (fun c => isWhiteSpace c = false) (strip_currency s).
Proof.
  apply Forall_forall. intros c [Hc _]%list_elem_of_In%list_elem_of_filter.
  destruct (isWhiteSpace c) eqn:E; [|done].
  destruct Hc. right; by left.
Qed.

Lemma strip_percent_no_space s :
  Forall (fun c => isWhiteSpace c = false) (strip_percent s).
Proof.
  apply Forall_forall. intros c [Hc _]%list_elem_of_In%list_elem_of_filter.
  destruct (isWhiteSpace c) eqn:E; [|done].
  destruct Hc. by right.
Qed.

(** [parseNumber] and [parsePercent] through what is left after
    stripping. *)
Lemma parseNumber_stripped s :
  parseNumber (Some s)
  = let cleaned := strip_currency s in
    if bool_decide (cleaned = []) || bool_decide (cleaned = js "-") then zero
    else if isNaN (parseFloat cleaned) then zero else parseFloat cleaned.
Proof.
  unfold parseNumber. rewrite (trim_id _ (strip_currency_no_space s)).
  destruct s; reflexivity.
Qed.

Lemma parseFloat_nil : parseFloat [] = NaN.
Proof. reflexivity. Qed.

Lemma parsePercent_stripped s :
  parsePercent (Some s)
  = let cleaned := strip_percent s in
    if isNaN (parseFloat cleaned) then zero else parseFloat cleaned.
Proof.
  unfold parsePercent. rewrite (trim_id _ (strip_percent_no_space s)).
  destruct s; reflexivity.
Qed.

Lemma digit_cases c :
  isDigit c = true →
  c ∈ [48; 49; 50; 51; 52; 53; 54; 55; 56; 57]%N.
Proof.
  unfold isDigit. intros [H1%N.leb_le H2%N.leb_le]%andb_true_iff.
  rewrite !elem_of_cons, elem_of_nil. lia.
Qed.

Lemma take_sign_digit c s :
  isDigit c = true → take_sign (c :: s) = (false, c :: s).
Proof.
  intros H%digit_cases.
  repeat (apply elem_of_cons in H as [->|H]; [reflexivity|]).
  by apply elem_of_nil in H.
Qed.

Lemma startsWith_digit c s p ps :
  isDigit c = true → isDigit p = false → startsWith (c :: s) (p :: ps) = false.
Proof.
  intros Hc Hp. simpl. destruct (N.eqb_spec c p) as [->|]; [congruence|done].
Qed.

(** [parseFloat] reads a plain decimal text as the number it denotes. *)
Lemma parseFloat_decimal neg ip fp :
  ip ≠ [] →
  Forall (fun c => isDigit c = true) ip →
  Forall (fun c => isDigit c = true) (default [] fp) →
  parseFloat (decimal_text neg ip fp) = decimal_value neg ip fp.
Proof.
  intros Hne Hip Hfp.
  destruct ip as [|d ip]; [done|]. clear Hne.
  pose proof (Forall_inv Hip) as Hd.
  set (tail := match fp with Some ds => 46%N :: ds | None => [] end).
  assert (Hsign : take_sign (trimStart (decimal_text neg (d :: ip) fp))
                   = (neg, (d :: ip) ++ tail)).
  { unfold decimal_text. fold tail. destruct neg; simpl.
    - reflexivity.
    - rewrite (digit_not_space d Hd). by apply take_sign_digit. }
  unfold parseFloat. rewrite Hsign.
  change ((d :: ip) ++ tail) with (d :: (ip ++ tail)).
  change (js "Infinity") with (73%N :: js "nfinity").
  rewrite startsWith_digit by done.
  change (d :: (ip ++ tail)) with ((d :: ip) ++ tail).
  rewrite span_digits_app; [|done|].
  2:{ intros c. destruct fp; simpl; [|done]. by intros [= <-]. }
  unfold decimal_value. destruct fp as [ds|]; simpl in Hfp |- *.
  - rewrite <- (app_nil_r ds) at 1.
    rewrite span_digits_app by done. simpl. reflexivity.
  - rewrite app_nil_r. reflexivity.
Qed.

Lemma strip_currency_insert a t b :
  Forall currency_noise t → strip_currency (a ++ t ++ b) = strip_currency (a ++ b).
Proof.
  intros Ht. unfold strip_currency. rewrite !list.filter_app.
  rewrite (filter_drop_all _ t); [done|].
  eapply Forall_impl; [|exact Ht]. intros c Hc Hn. by apply Hn.
Qed.

Lemma strip_percent_insert a t b :
  Forall percent_noise t → strip_percent (a ++ t ++ b) = strip_percent (a ++ b).
Proof.
  intros Ht. unfold strip_percent. rewrite !list.filter_app.
  rewrite (filter_drop_all _ t); [done|].
  eapply Forall_impl; [|exact Ht]. intros c Hc Hn. by apply Hn.
Qed.

(** The units of a plain decimal text: digits, the minus sign, the point. *)
Lemma decimal_text_units neg ip fp :
  Forall (fun c => isDigit c = true) ip →
  Forall (fun c => isDigit c = true) (default [] fp) →
  Forall (fun c => isDigit c = true ∨ c = 45%N ∨ c = 46%N) (decimal_text neg ip fp).
Proof.
  intros Hip Hfp. unfold decimal_text. rewrite !Forall_app.
  split; [|split].
  - destruct neg; constructor; [auto|constructor].
  - eapply Forall_impl; [|exact Hip]. simpl. auto.
  - destruct fp as [ds|]; [|constructor]. constructor; [auto|].
    eapply Forall_impl; [|exact Hfp]. simpl. auto.
Qed.

Lemma decimal_text_not_minus neg ip fp :
  ip ≠ [] → Forall (fun c => isDigit c = true) ip →
  decimal_text neg ip fp ≠ [] ∧ decimal_text neg ip fp ≠ js "-".
Proof.
  intros Hne Hip. destruct ip as [|d ip]; [done|].
  pose proof (Forall_inv Hip) as Hd. simpl in Hd.
  unfold decimal_text. destruct neg; simpl; split; try done.
  intros [= ->]. discriminate.
Qed.

Lemma parseNumber_decimal neg ip fp :
  ip ≠ [] →
  Forall (fun c => isDigit c = true) ip →
  Forall (fun c => isDigit c = true) (default [] fp) →
  parseNumber (Some (decimal_text neg ip fp)) = decimal_value neg ip fp.
Proof.
  intros Hne Hip Hfp. rewrite parseNumber_stripped. cbv zeta.
  assert (Hs : strip_currency (decimal_text neg ip fp) = decimal_text neg ip fp).
  { apply filter_keep_all.
    eapply Forall_impl; [ | by apply decimal_text_units ].
    intros c [Hc | [-> | ->]]; [by apply digit_not_currency_noise|..];
      (intros [?|[?|[?|Hin]]]; try discriminate;
       rewrite !elem_of_cons, elem_of_nil in Hin; lia). }
  rewrite Hs. destruct (decimal_text_not_minus neg ip fp Hne Hip) as [H1 H2].
  rewrite !bool_decide_eq_false_2 by done.
  by rewrite parseFloat_decimal.
Qed.

Lemma parsePercent_decimal neg ip fp :
  ip ≠ [] →
  Forall (fun c => isDigit c = true) ip →
  Forall (fun c => isDigit c = true) (default [] fp) →
  parsePercent (Some (decimal_text neg ip fp)) = decimal_value neg ip fp.
Proof.
  intros Hne Hip Hfp. rewrite parsePercent_stripped. cbv zeta.
  assert (Hs : strip_percent (decimal_text neg ip fp) = decimal_text neg ip fp).
  { apply filter_keep_all.
    eapply Forall_impl; [ | by apply decimal_text_units ].
    intros c [Hc | [-> | ->]]; [by apply digit_not_percent_noise|..];
      (intros [?|?]; discriminate). }
  rewrite Hs. by rewrite parseFloat_decimal.
Qed.


(** The matches of [take_sign] and [parseFloat] on a unit that is neither a
    sign nor a point. *)
Lemma take_sign_other c s :
  c ≠ 43%N → c ≠ 45%N → take_sign (c :: s) = (false, c :: s).
Proof.
  intros H1 H2. unfold take_sign.
  destruct c as [|p]; [done|].
  repeat (destruct p as [p|p|]; try reflexivity; try congruence).
Qed.

Lemma take_sign_suffix (P : N → Prop) s :
  Forall P s → Forall P (take_sign s).2.
Proof.
  intros Hs. destruct s as [|c s]; [done|].
  destruct (decide (c = 43%N)) as [->|H1]; [by inversion Hs|].
  destruct (decide (c = 45%N)) as [->|H2]; [by inversion Hs|].
  by rewrite take_sign_other.
Qed.

Lemma trimStart_suffix (P : N → Prop) s :
  Forall P s → Forall P (trimStart s).
Proof.
  induction 1 as [|c s Hc Hs IH]; simpl; [done|].
  destruct (isWhiteSpace c); [done|by constructor].
Qed.

Lemma fraction_other {A} c (r : jsstring) (f : jsstring → A) (g : A) :
  c ≠ 46%N →
  match c :: r with 46%N :: r' => f r' | _ => g end = g.
Proof.
  intros H. destruct c as [|p]; [done|].
  repeat (destruct p as [p|p|]; try reflexivity; try congruence).
Qed.

Lemma span_digits_none s :
  Forall (fun c => isDigit c = false) s → span_digits s = ([], s).
Proof. destruct 1 as [|c s Hc _]; simpl; [done|by rewrite Hc]. Qed.

Lemma startsWith_Infinity s :
  startsWith s (js "Infinity") = true → 110%N ∈ s.
Proof.
  destruct s as [|a [|b s]]; simpl; [done|by rewrite andb_false_r|].
  intros [_ [Hb%N.eqb_eq _]%andb_true_iff]%andb_true_iff. subst b.
  set_solver.
Qed.

(** Without a digit, and without the letter n of Infinity, [parseFloat]
    finds no number. *)
Lemma parseFloat_no_digit s :
  Forall (fun c => isDigit c = false) s → 110%N ∉ s → parseFloat s = NaN.
Proof.
  intros Hd Hn. unfold parseFloat.
  pose proof (take_sign_suffix _ _ (trimStart_suffix _ _ Hd)) as Hd1.
  assert (Hn1 : 110%N ∉ (take_sign (trimStart s)).2).
  { assert (Hn' : Forall (fun c => c ≠ 110%N) s).
    { apply Forall_forall. intros c Hc ->. by apply Hn, list_elem_of_In. }
    intros Hin. apply list_elem_of_In in Hin.
    pose proof (take_sign_suffix _ _ (trimStart_suffix _ _ Hn')) as H.
    rewrite Forall_forall in H. by apply (H _ Hin). }
  destruct (take_sign (trimStart s)) as [neg s1]. simpl in Hd1, Hn1.
  destruct (startsWith s1 (js "Infinity")) eqn:Hinf.
  { by apply startsWith_Infinity in Hinf. }
  rewrite (span_digits_none _ Hd1).
  destruct s1 as [|c r]; [done|].
  destruct (decide (c = 46%N)) as [->|Hc].
  - rewrite (span_digits_none r); [done|]. by inversion Hd1.
  - by rewrite fraction_other.
Qed.



(** X5.  [parseNumber] never returns NaN, and a cell that is missing or
    holds no decimal digit gives 0. *)
Theorem parseNumber_without_digit :
  (∀ str, isNaN (parseNumber str) = false)
  ∧ parseNumber None = zero
  ∧ (∀ s, Forall (fun c => isDigit c = false) s → parseNumber (Some s) = zero).
Proof.
  split; [|split].
  - intros [s|]; [|done]. rewrite parseNumber_stripped. cbv zeta.
    destruct (_ || _); [done|].
    by destruct (parseFloat (strip_currency s)).
  - reflexivity.
  - intros s Hs. rewrite parseNumber_stripped. cbv zeta.
    destruct (_ || _); [done|].
    rewrite parseFloat_no_digit; [done| |].
    + apply Forall_forall. intros c [_ Hc]%list_elem_of_In%list_elem_of_filter.
      rewrite Forall_forall in Hs. by apply Hs, list_elem_of_In.
    + intros [Hc _]%list_elem_of_filter. apply Hc.
      right; right; right. set_solver.
Qed.

Lemma parseNumber_without_digit_witness :
  Forall (fun c => isDigit c = false) (js "n/a -")
  ∧ parseNumber (Some (js "n/a -")) = zero.
Proof.
  assert (H : Forall (fun c => isDigit c = false) (js "n/a -"))
    by (repeat constructor).
  split; [exact H|].
  exact (proj2 (proj2 parseNumber_without_digit) _ H).
Defined.



(** ** Dates *)

Lemma split_no_sep sep s : sep ∉ s → split sep s = [s].
Proof.
  induction s as [|c s IH]; intros Hs; simpl; [done|].
  apply not_elem_of_cons in Hs as [Hc Hs].
  rewrite (proj2 (N.eqb_neq c sep)) by done. by rewrite IH.
Qed.

Lemma split_app_sep sep a b :
  sep ∉ a → split sep (a ++ sep :: b) = a :: split sep b.
Proof.
  induction a as [|c a IH]; intros Ha; simpl.
  - by rewrite N.eqb_refl.
  - apply not_elem_of_cons in Ha as [Hc Ha].
    rewrite (proj2 (N.eqb_neq c sep)) by done. by rewrite IH.
Qed.

Lemma length_split sep s :
  length (split sep s) = S (length (filter (fun c => c = sep) s)).
Proof.
  induction s as [|c s IH]; simpl; [done|].
  rewrite filter_cons. destruct (N.eqb_spec c sep) as [->|Hc].
  - rewrite decide_True by done. simpl. by rewrite IH.
  - rewrite decide_False by done.
    destruct (split sep s) as [|p ps]; simpl in *; [done|done].
Qed.

Lemma digits_no_slash ds :
  Forall (fun c => isDigit c = true) ds → SLASH ∉ ds.
Proof.
  intros Hds Hin. apply list_elem_of_In in Hin.
  rewrite Forall_forall in Hds. by apply Hds in Hin.
Qed.

Lemma parseInt10_digits ds :
  ds ≠ [] → Forall (fun c => isDigit c = true) ds →
  parseInt10 ds = Some (digits_value ds).
Proof.
  intros Hne Hds. destruct ds as [|d ds]; [done|].
  pose proof (Forall_inv Hds) as Hd. simpl in Hd.
  unfold parseInt10. simpl trimStart. rewrite (digit_not_space d Hd).
  rewrite take_sign_digit by done.
  rewrite <- (app_nil_r (d :: ds)) at 1.
  rewrite span_digits_app by done. reflexivity.
Qed.

(** X7.  A date written as three runs of digits separated by two slashes
    is read as month, day and year, whatever the number of digits of each
    and whatever [Date.parse] would make of the string: the result is the
    local date [new Date(year, month - 1, day)]. *)
Theorem parseDate_slash_date Date_parse m d y :
  m ≠ [] → d ≠ [] → y ≠ [] →
  Forall (fun c => isDigit c = true) m →
  Forall (fun c => isDigit c = true) d →
  Forall (fun c => isDigit c = true) y →
  parseDate Date_parse (m ++ [SLASH] ++ d ++ [SLASH] ++ y)
  = Some (DateLocal (digits_value y) (digits_value m - 1) (digits_value d)).
Proof.
  intros Hm Hd Hy Dm Dd Dy. unfold parseDate.
  assert (Ht : truthy_str (m ++ [SLASH] ++ d ++ [SLASH] ++ y) = true)
    by (by destruct m).
  rewrite Ht. simpl negb. cbv iota.
  unfold slash_parts. simpl app.
  rewrite !split_app_sep by (by apply digits_no_slash).
  rewrite split_no_sep by (by apply digits_no_slash).
  simpl. by rewrite !parseInt10_digits.
Qed.

Lemma parseDate_slash_date_witness :
  parseDate (fun _ => None) (js "3/4/2024") = Some (DateLocal 2024 2 4).
Proof.
  apply (parseDate_slash_date (fun _ => None) (js "3") (js "4") (js "2024"));
    try (simpl; discriminate); repeat constructor.
Defined.

(** X8.  The empty string is no date, and a string that does not hold
    exactly two slashes is handed to [Date.parse]: the result is the date
    of the time value it returns, and [null] when it returns NaN. *)
Theorem parseDate_fallback Date_parse :
  parseDate Date_parse [] = None
  ∧ (∀ s, s ≠ [] →
       length (filter (fun c => c = SLASH) s) ≠ 2 →
       parseDate Date_parse s = DateOfTime <$> Date_parse s).
Proof.
  split; [done|].
  intros s Hne Hcount. unfold parseDate.
  destruct s as [|c s]; [done|]. simpl truthy_str. simpl negb. cbv iota.
  unfold slash_parts. rewrite length_split.
  rewrite (proj2 (Nat.eqb_neq _ 3)) by lia.
  by destruct (Date_parse (c :: s)).
Qed.

Lemma parseDate_fallback_witness :
  js "2024-03-04" ≠ []
  ∧ length (filter (fun c => c = SLASH) (js "2024-03-04")) ≠ 2
  ∧ parseDate (fun s => if bool_decide (s = js "2024-03-04")
                        then Some 1709510400000%Z else None)
      (js "2024-03-04")
    = Some (DateOfTime 1709510400000).
Proof.
  assert (H1 : js "2024-03-04" ≠ []) by (simpl; discriminate).
  assert (H2 : length (filter (fun c => c = SLASH) (js "2024-03-04")) ≠ 2)
    by (vm_compute; lia).
  split; [exact H1|split; [exact H2|]].
  exact (proj2 (parseDate_fallback _) _ H1 H2).
Defined.

(** ** Trimming *)

Lemma trimStart_idem s : trimStart (trimStart s) = trimStart s.
Proof.
  induction s as [|c s IH]; simpl; [done|].
  destruct (isWhiteSpace c) eqn:Hc; [done|]. simpl. by rewrite Hc.
Qed.

Lemma trimStart_space_app ws s :
  Forall (fun c => isWhiteSpace c = true) ws → trimStart (ws ++ s) = trimStart s.
Proof. induction 1 as [|c ws Hc _ IH]; simpl; [done|by rewrite Hc]. Qed.

Lemma trimStart_space ws :
  Forall (fun c => isWhiteSpace c = true) ws → trimStart ws = [].
Proof. induction 1 as [|c ws Hc _ IH]; simpl; [done|by rewrite Hc]. Qed.

Lemma trimStart_app a b :
  trimStart (a ++ b) = if truthy_str (trimStart a) then trimStart a ++ b
                       else trimStart b.
Proof.
  induction a as [|c a IH]; simpl; [done|].
  destruct (isWhiteSpace c) eqn:Hc; [done|]. reflexivity.
Qed.

Lemma trimStart_head s c t : trimStart s = c :: t → isWhiteSpace c = false.
Proof.
  induction s as [|d s IH]; simpl; [done|].
  destruct (isWhiteSpace d) eqn:Hd; [done|]. by intros [= <- _].
Qed.

Lemma trim_of_trimmed s : trimmed s → trim s = s.
Proof.
  intros [H1 H2]. unfold trim, trimEnd. rewrite H1, H2. apply rev_involutive.
Qed.

Lemma trim_trimmed s : trimmed (trim s).
Proof.
  unfold trimmed, trim, trimEnd. rewrite rev_involutive, trimStart_idem.
  split; [|done].
  destruct (trimStart s) as [|c t] eqn:Ht; [done|].
  pose proof (trimStart_head _ _ _ Ht) as Hc.
  simpl rev. rewrite trimStart_app.
  destruct (trimStart (rev t)) as [|d u]; simpl.
  - rewrite Hc. simpl. by rewrite Hc.
  - rewrite rev_app_distr. simpl. by rewrite Hc.
Qed.

Lemma trim_idem s : trim (trim s) = trim s.
Proof. apply trim_of_trimmed, trim_trimmed. Qed.

Lemma trim_nil : trim [] = [].
Proof. reflexivity. Qed.

Lemma trim_padding ws1 s ws2 :
  Forall (fun c => isWhiteSpace c = true) ws1 →
  Forall (fun c => isWhiteSpace c = true) ws2 →
  trim (ws1 ++ s ++ ws2) = trim s.
Proof.
  intros H1 H2. unfold trim, trimEnd. rewrite trimStart_space_app by done.
  rewrite trimStart_app.
  destruct (trimStart s) as [|c t]; simpl.
  - by rewrite (trimStart_space ws2).
  - change (c :: t ++ ws2) with ((c :: t) ++ ws2).
    rewrite rev_app_distr, <- app_assoc, trimStart_space_app; [done|].
    apply Forall_forall. intros x Hx%in_rev.
    rewrite Forall_forall in H2. by apply H2.
Qed.

(** ** Expenses *)

Lemma or_default_nil cell : or_default cell [] = default [] cell.
Proof. by destruct cell as [[|c s]|]. Qed.



(** ** Category normalizer *)

(** X10.  [normalizeCategory] is idempotent: a normalized name is its own
    normal form, so comparing or grouping by normalized names is stable. *)
Theorem normalizeCategory_idempotent cat :
  normalizeCategory (normalizeCategory cat) = normalizeCategory cat.
Proof.
  unfold normalizeCategory at 2 3.
  destruct (truthy_str cat); simpl negb; cbv iota; [|done].
  destruct (startsWith (toLowerCase (trim cat)) (js "hard")) eqn:Hh; [done|].
  destruct (startsWith (toLowerCase (trim cat)) (js "soft")) eqn:Hs; [done|].
  destruct (startsWith (toLowerCase (trim cat)) (js "terreno")) eqn:Ht; [done|].
  unfold normalizeCategory.
  destruct (truthy_str (trim cat)) eqn:Hne; simpl negb; cbv iota.
  - by rewrite trim_idem, Hh, Hs, Ht.
  - by destruct (trim cat).
Qed.

(** X11.  White space around a category does not change its normal
    form. *)
Theorem normalizeCategory_padding ws1 cat ws2 :
  Forall (fun c => isWhiteSpace c = true) ws1 →
  Forall (fun c => isWhiteSpace c = true) ws2 →
  normalizeCategory (ws1 ++ cat ++ ws2) = normalizeCategory cat.
Proof.
  intros H1 H2. unfold normalizeCategory.
  rewrite trim_padding by done.
  destruct cat as [|c cat].
  - rewrite app_nil_l.
    replace (trim []) with (@nil N) by reflexivity.
    by destruct (truthy_str (ws1 ++ ws2)).
  - replace (truthy_str (ws1 ++ (c :: cat) ++ ws2)) with true; [done|].
    by destruct ws1.
Qed.

Lemma normalizeCategory_padding_witness :
  normalizeCategory (js "  " ++ js "HARD costs" ++ js " ") = js "Hard Cost".
Proof.
  rewrite (normalizeCategory_padding (js "  ") (js "HARD costs") (js " "));
    [reflexivity|repeat constructor|repeat constructor].
Defined.

(** ** Expense aggregator *)






Lemma accumulate_lookup_ne obj k k' n :
  k ≠ k' → accumulate obj k n !! k' = obj !! k'.
Proof.
  intros Hne. unfold accumulate, obj_set.
  destruct (bool_decide (k = PROTO)); [by destruct (negb _)|].
  rewrite lookup_insert_ne by done.
  destruct (negb _); [by rewrite lookup_insert_ne|done].
Qed.

Lemma accumulate_proto obj n : accumulate obj PROTO n = obj.
Proof.
  unfold accumulate, obj_set. rewrite bool_decide_eq_true_2 by done.
  by destruct (negb _).
Qed.


(** What it leaves under a name inherited from [Object.prototype]. *)
Lemma accumulate_lookup_inherited obj k n :
  k ∈ OBJECT_PROTOTYPE_KEYS → k ≠ PROTO →
  (∀ v, obj !! k = Some v → ∃ added, v = VText k added) →
  accumulate obj k n !! k
  = Some (VText k (match obj !! k with
                   | Some (VText _ added) => added ++ [n]
                   | _ => [n]
                   end)).
Proof.
  intros Hk Hp Htext. unfold accumulate, obj_set, obj_get.
  rewrite !(bool_decide_eq_false_2 (k = PROTO)) by done.
  rewrite !(bool_decide_eq_true_2 (k ∈ OBJECT_PROTOTYPE_KEYS)) by done.
  destruct (obj !! k) as [v|] eqn:Hv.
  - destruct (Htext v eq_refl) as [added ->].
    change (truthy (Own (VText k added))) with true. simpl negb. cbv iota.
    rewrite Hv. by rewrite lookup_insert_eq.
  - change (truthy (Inherited k)) with true. simpl negb. cbv iota.
    rewrite Hv. by rewrite lookup_insert_eq.
Qed.


(** The three components of the summary, each folded on its own. *)
Lemma fold_summary_step es s :
  fold_left summary_step es s
  = mkSummary (fold_left (fun t e => num_add t (amount e)) es (total s))
              (accumulate_by category_key es (byCategory s))
              (accumulate_by subcategory_key es (bySubcategory s)).
Proof.
  revert s. induction es as [|e es IH]; intros s; simpl.
  - by destruct s.
  - by rewrite IH.
Qed.

Lemma accumulate_by_snoc key es e obj :
  accumulate_by key (es ++ [e]) obj
  = accumulate (accumulate_by key es obj) (key e) (amount e).
Proof. unfold accumulate_by. by rewrite fold_left_app. Qed.


Lemma filter_snoc {A} (P : A → Prop) `{∀ x, Decision (P x)} (l : list A) x :
  filter P (l ++ [x]) = if decide (P x) then filter P l ++ [x] else filter P l.
Proof.
  rewrite list.filter_app, filter_cons, filter_nil.
  destruct (decide (P x)); [done|by rewrite app_nil_r].
Qed.


(** The entry of a name inherited from [Object.prototype]: a text, never a
    number. *)
Lemma accumulate_by_inherited key es k :
  k ∈ OBJECT_PROTOTYPE_KEYS → k ≠ PROTO →
  accumulate_by key es ∅ !! k
  = match filter (fun e => key e = k) es with
    | [] => None
    | es_k => Some (VText k (amount <$> es_k))
    end.
Proof.
  intros Hk Hp. induction es as [|e es IH] using rev_ind; [done|].
  rewrite accumulate_by_snoc, filter_snoc.
  destruct (decide (key e = k)) as [He|He].
  - rewrite He. rewrite accumulate_lookup_inherited; [|done|done|].
    + rewrite IH.
      destruct (filter (fun e0 => key e0 = k) es) as [|e1 l] eqn:Hf.
      * reflexivity.
      * change ((e1 :: l) ++ [e]) with (e1 :: (l ++ [e])). cbv iota.
        change (e1 :: (l ++ [e])) with ((e1 :: l) ++ [e]).
        by rewrite fmap_app.
    + intros v. rewrite IH.
      destruct (filter _ es); [done|]. intros [= <-]. eauto.
  - rewrite accumulate_lookup_ne by done. apply IH.
Qed.

Lemma accumulate_by_proto key es : accumulate_by key es ∅ !! PROTO = None.
Proof.
  induction es as [|e es IH] using rev_ind; [done|].
  rewrite accumulate_by_snoc.
  destruct (decide (key e = PROTO)) as [->|He].
  - by rewrite accumulate_proto.
  - by rewrite accumulate_lookup_ne.
Qed.



Lemma byCategory_accumulate_by es :
  byCategory (calculateExpenseSummary es) = accumulate_by category_key es ∅.
Proof. unfold calculateExpenseSummary. by rewrite fold_summary_step. Qed.






(** X16.  A category whose normal form is a property name that every
    object inherits from [Object.prototype] ([constructor], [toString],
    [valueOf], ...) gets no numeric total: the guard [!byCategory[key]] sees
    the inherited member, so [+=] builds a text from it and from the amounts
    added, in order; under [__proto__] nothing is stored at all. *)
Theorem summary_inherited_key es k :
  k ∈ OBJECT_PROTOTYPE_KEYS →
  byCategory (calculateExpenseSummary es) !! k
  = match filter (fun e => category_key e = k) es with
    | [] => None
    | es_k => if bool_decide (k = PROTO) then None
              else Some (VText k (amount <$> es_k))
    end.
Proof.
  intros Hk. rewrite byCategory_accumulate_by.
  destruct (decide (k = PROTO)) as [->|Hp].
  - rewrite accumulate_by_proto. by destruct (filter _ es).
  - rewrite accumulate_by_inherited by done.
    destruct (filter _ es); [done|]. by rewrite bool_decide_eq_false_2.
Qed.

Lemma summary_inherited_key_witness :
  js "constructor" ∈ OBJECT_PROTOTYPE_KEYS
  ∧ byCategory (calculateExpenseSummary
        [mkExpense [] None (js "constructor") (js "x") (num_of_Z 100)])
      !! js "constructor"
    = Some (VText (js "constructor") [num_of_Z 100]).
Proof.
  assert (H : js "constructor" ∈ OBJECT_PROTOTYPE_KEYS)
    by (by apply (bool_decide_unpack _)).
  split; [exact H|].
  rewrite (summary_inherited_key _ _ H). reflexivity.
Defined.











(** ** The tokenizer on text without quotes *)

Lemma csv_step_plain st c next :
  inQuotes st = false → plain_unit c →
  csv_step st c next = (add_to_field st [c], false).
Proof.
  intros Hq (H1 & H2 & H3 & H4). unfold csv_step. rewrite Hq.
  rewrite (proj2 (N.eqb_neq c QUOTE)), (proj2 (N.eqb_neq c COMMA)),
    (proj2 (N.eqb_neq c LF)), (proj2 (N.eqb_neq c CR)) by done.
  reflexivity.
Qed.

Lemma add_to_field_app st a b :
  add_to_field (add_to_field st a) b = add_to_field st (a ++ b).
Proof. unfold add_to_field. simpl. by rewrite app_assoc. Qed.

Lemma csv_loop_plain st f after :
  inQuotes st = false → Forall plain_unit f →
  csv_loop st false f after = (add_to_field st f, false).
Proof.
  intros Hq Hf. revert st Hq.
  induction Hf as [|c f Hc _ IH]; intros st Hq; simpl.
  - unfold add_to_field. rewrite app_nil_r. by destruct st.
  - rewrite csv_step_plain by done. rewrite IH by done.
    by rewrite add_to_field_app.
Qed.

(** The loop over the fields of a line: all but the last are pushed, the
    last is the current field. *)
Lemma csv_loop_fields fields rs row after :
  fields ≠ [] → Forall (Forall plain_unit) fields →
  csv_loop (CsvState rs row [] false) false (join_fields fields) after
  = (CsvState rs (row ++ (trim <$> removelast fields)) (List.last fields [])
       false, false).
Proof.
  intros Hne Hplain. revert row.
  induction Hplain as [|f fields Hf Hfs IH]; intros row; [done|].
  destruct fields as [|f' fields].
  - simpl. rewrite csv_loop_plain by done.
    unfold add_to_field. simpl. by rewrite app_nil_r.
  - change (join_fields (f :: f' :: fields))
      with (f ++ COMMA :: join_fields (f' :: fields)).
    rewrite csv_loop_app, csv_loop_plain by done.
    cbn [csv_loop]. unfold csv_step at 1. simpl inQuotes. cbv iota.
    change (COMMA =? QUOTE)%N with false. cbv iota.
    rewrite N.eqb_refl. unfold push_field, add_to_field. simpl.
    rewrite IH by done.
    change (removelast (f :: f' :: fields))
      with (f :: removelast (f' :: fields)).
    by rewrite <- app_assoc.
Qed.

Lemma removelast_last_fmap {A B} (g : A → B) (l : list A) d :
  l ≠ [] → (g <$> removelast l) ++ [g (List.last l d)] = g <$> l.
Proof.
  intros Hne. rewrite (app_removelast_last d Hne) at 3.
  by rewrite fmap_app.
Qed.

(** The loop over a line and its line break. *)
Lemma csv_loop_line fields crlf rs rest after :
  fields ≠ [] → Forall (Forall plain_unit) fields →
  csv_loop (CsvState rs [] [] false) false
    ((join_fields fields ++ line_break crlf) ++ rest) after
  = csv_loop (CsvState (rs ++ [trim <$> fields]) [] [] false) false rest after.
Proof.
  intros Hne Hplain. rewrite <- app_assoc.
  rewrite csv_loop_app, csv_loop_fields by done.
  assert (Hrow : ∀ st, currentRow st = (trim <$> removelast fields) →
            currentField st = List.last fields [] → inQuotes st = false →
            end_row st = CsvState (rows st ++ [trim <$> fields]) [] [] false).
  { intros [rs' row' f' q'] Hr Hf Hq. simpl in *. subst.
    unfold end_row. simpl.
    rewrite removelast_last_fmap by done.
    destruct (trim <$> fields) eqn:E; [by destruct fields|done]. }
  destruct crlf; simpl line_break.
  - cbn [app csv_loop next_of]. unfold csv_step. simpl inQuotes. cbv iota.
    change (CR =? QUOTE)%N with false. change (CR =? COMMA)%N with false.
    change (CR =? LF)%N with false. rewrite N.eqb_refl.
    rewrite bool_decide_eq_true_2 by done. simpl orb. cbv iota.
    by rewrite Hrow.
  - cbn [app csv_loop next_of]. unfold csv_step. simpl inQuotes. cbv iota.
    change (LF =? QUOTE)%N with false. change (LF =? COMMA)%N with false.
    rewrite N.eqb_refl. simpl orb. cbv iota.
    change (LF =? CR)%N with false. cbv iota.
    by rewrite Hrow.
Qed.

Lemma csv_loop_lines lines rs rest after :
  Forall (fun l => l.1 ≠ [] ∧ Forall (Forall plain_unit) l.1) lines →
  csv_loop (CsvState rs [] [] false) false
    (concat (map (fun l => join_fields l.1 ++ line_break l.2) lines) ++ rest)
    after
  = csv_loop (CsvState (rs ++ map (fun l => trim <$> l.1) lines) [] [] false)
      false rest after.
Proof.
  intros Hlines. revert rs.
  induction Hlines as [|[fields crlf] lines [Hne Hplain] _ IH]; intros rs.
  - simpl. by rewrite app_nil_r.
  - cbn [concat map fst snd]. rewrite <- (app_assoc _ _ rest).
    rewrite csv_loop_line by done.
    rewrite IH. by rewrite <- app_assoc.
Qed.

Lemma join_fields_nil fields :
  join_fields fields = [] → fields = [] ∨ fields = [[]].
Proof.
  destruct fields as [|f [|f' fields]]; simpl; [by left| |].
  - intros ->. by right.
  - by destruct f.
Qed.

(** X1.  On a text without quotes and without carriage returns other than
    in line breaks, [parseCSV] returns one row for each line, whether the
    line ends with a line feed or with a carriage return and a line feed,
    holding the fields between the commas, trimmed; a last line without a
    line break is a row like the others, and a text that ends with a line
    break has no empty row after it. *)
Theorem parseCSV_plain_lines lines last :
  Forall (fun l => l.1 ≠ [] ∧ Forall (Forall plain_unit) l.1) lines →
  Forall (Forall plain_unit) last →
  parseCSV (csv_text lines last)
  = map (fun l => trim <$> l.1) lines
    ++ (if bool_decide (join_fields last = []) then [] else [trim <$> last]).
Proof.
  intros Hlines Hlast. unfold parseCSV, csv_text, csv_init.
  rewrite csv_loop_lines by done. simpl app.
  destruct (decide (join_fields last = [])) as [Hnil|Hnil].
  - rewrite Hnil, bool_decide_eq_true_2 by done. simpl.
    unfold csv_finish. simpl. by rewrite app_nil_r.
  - rewrite bool_decide_eq_false_2 by done.
    assert (Hne : last ≠ []) by (by intros ->).
    rewrite csv_loop_fields by done. simpl fst.
    unfold csv_finish. simpl currentField. simpl currentRow. simpl rows.
    assert (Hkeep : truthy_str (List.last last [])
                    || (0 <? length (trim <$> removelast last))%nat = true).
    { destruct last as [|f [|f' fields]]; [done| |].
      - simpl in *. by destruct f.
      - change (removelast (f :: f' :: fields))
          with (f :: removelast (f' :: fields)).
        rewrite fmap_cons. simpl length. apply orb_true_r. }
    rewrite Hkeep. by rewrite removelast_last_fmap.
Qed.

Lemma parseCSV_plain_lines_witness :
  parseCSV (csv_text [([js "Fecha"; js " Monto "], true); ([[]], false)]
                     [js "1/2/2024"; js "$5"])
  = [[js "Fecha"; js "Monto"]; [[]]; [js "1/2/2024"; js "$5"]].
Proof.
  rewrite parseCSV_plain_lines.
  - reflexivity.
  - by apply (bool_decide_unpack _).
  - by apply (bool_decide_unpack _).
Defined.

(** ** Invariants of the tokenizer *)

Lemma csv_inv_push st :
  csv_inv st →
  Forall (fun row => row ≠ [] ∧ Forall trimmed row)
    (rows st ++ [currentRow st ++ [trim (currentField st)]]).
Proof.
  intros [Hrows Hrow]. apply Forall_app. split; [done|].
  constructor; [|done]. split; [by destruct (currentRow st)|].
  apply Forall_app. split; [done|]. constructor; [apply trim_trimmed|done].
Qed.

Lemma csv_step_inv st c next : csv_inv st → csv_inv (csv_step st c next).1.
Proof.
  intros Hinv. pose proof (csv_inv_push st Hinv) as Hpush.
  destruct Hinv as [Hrows Hrow]. unfold csv_step.
  repeat match goal with |- context [if ?b then _ else _] => destruct b end;
    simpl; try (split; done).
  - split; [done|]. simpl. apply Forall_app. split; [done|].
    constructor; [apply trim_trimmed|done].
  - split; simpl; [|done].
    by destruct (0 <? length (currentRow st ++ [trim (currentField st)]))%nat.
Qed.

Lemma csv_loop_inv text st skip after :
  csv_inv st → csv_inv (csv_loop st skip text after).1.
Proof.
  revert st skip. induction text as [|c text IH]; intros st skip Hinv; simpl.
  - done.
  - destruct skip; [by apply IH|].
    pose proof (csv_step_inv st c (next_of text after) Hinv) as Hstep.
    destruct (csv_step st c (next_of text after)) as [st' skip'].
    by apply IH.
Qed.

Lemma parseCSV_fields_trimmed text :
  Forall (fun row => row ≠ [] ∧ Forall trimmed row) (parseCSV text).
Proof.
  unfold parseCSV.
  assert (Hinit : csv_inv csv_init) by (split; constructor).
  pose proof (csv_loop_inv text csv_init false None Hinit) as Hinv.
  destruct (csv_loop csv_init false text None) as [st skip]. simpl in *.
  unfold csv_finish. destruct (_ || _); [by apply csv_inv_push|apply Hinv].
Qed.

(** X2.  Whatever the text, no row that [parseCSV] returns is empty, and
    every field is trimmed: it neither starts nor ends with white space. *)
Theorem parseCSV_rows_trimmed text :
  Forall (fun row => row ≠ [] ∧ Forall trimmed row) (parseCSV text).
Proof.
  unfold parseCSV.
  assert (Hinit : csv_inv csv_init) by (split; constructor).
  pose proof (csv_loop_inv text csv_init false None Hinit) as Hinv.
  destruct (csv_loop csv_init false text None) as [st skip]. simpl in *.
  unfold csv_finish. destruct (_ || _); [by apply csv_inv_push|apply Hinv].
Qed.

Lemma csv_loop_inside st body after :
  inQuotes st = true → QUOTE ∉ body →
  csv_loop st false body after = (add_to_field st body, false).
Proof.
  revert st. induction body as [|c body IH]; intros st Hq Hbody; simpl.
  - unfold add_to_field. rewrite app_nil_r. by destruct st.
  - apply not_elem_of_cons in Hbody as [Hc Hbody].
    unfold csv_step. rewrite Hq.
    rewrite (proj2 (N.eqb_neq c QUOTE)) by done.
    rewrite IH by done. by rewrite add_to_field_app.
Qed.

(** X3.  A quote that is never closed does not lose what follows it: when
    the loop reaches the quote outside quotes, in state [st], and no quote
    follows, all the rest of the text goes into the current field, and the
    last row is emitted with it (unless that row would be a single empty
    field that was never written). *)
Theorem parseCSV_unterminated_quote pre st body :
  csv_loop csv_init false pre (Some QUOTE) = (st, false) →
  inQuotes st = false →
  QUOTE ∉ body →
  parseCSV (pre ++ QUOTE :: body)
  = if truthy_str (currentField st ++ body) || (0 <? length (currentRow st))%nat
    then rows st ++ [currentRow st ++ [trim (currentField st ++ body)]]
    else rows st.
Proof.
  intros Hpre Hq Hbody. unfold parseCSV.
  rewrite csv_loop_app. simpl next_of. rewrite Hpre.
  cbn [csv_loop]. unfold csv_step at 1. rewrite Hq. rewrite N.eqb_refl.
  rewrite csv_loop_inside by done. reflexivity.
Qed.

Lemma parseCSV_unterminated_quote_witness :
  csv_loop csv_init false (js "a,b") (Some QUOTE)
  = (CsvState [] [js "a"] (js "b") false, false)
  ∧ (QUOTE ∉ js "c,d")
  ∧ parseCSV (js "a,b" ++ QUOTE :: js "c,d") = [[js "a"; js "bc,d"]].
Proof.
  assert (H1 : csv_loop csv_init false (js "a,b") (Some QUOTE)
               = (CsvState [] [js "a"] (js "b") false, false)) by reflexivity.
  assert (H2 : QUOTE ∉ js "c,d") by (by apply (bool_decide_unpack _)).
  split; [exact H1|split; [exact H2|]].
  exact (parseCSV_unterminated_quote _ _ _ H1 eq_refl H2).
Defined.

(** ** The capital sheet *)

Lemma row_at_nat rows (i : nat) : row_at rows (Z.of_nat i) = rows !! i.
Proof.
  unfold row_at. rewrite (proj2 (Z.ltb_ge _ _)) by lia.
  by rewrite Nat2Z.id.
Qed.

Lemma cell_at rows idx col row :
  row_at rows idx = Some row → cell rows idx col = Ok (row !! col).
Proof. intros H. unfold cell. by rewrite H. Qed.

Lemma use_at_ok rows i :
  use_at rows i = Ok (use_of_row <$> row_at rows i).
Proof.
  unfold use_at. destruct (row_at rows i) as [row|] eqn:Hrow; [|done].
  by rewrite !(cell_at _ _ _ row Hrow).
Qed.

Lemma indicator_at_ok parse rows i dflt :
  indicator_at parse rows i dflt
  = Ok (indicator_of_row parse dflt <$> row_at rows i).
Proof.
  unfold indicator_at. destruct (row_at rows i) as [row|] eqn:Hrow; [|done].
  by rewrite !(cell_at _ _ _ row Hrow).
Qed.

Lemma parseCapital_ok rows : ∃ c, parseCapital rows = Ok c.
Proof.
  unfold parseCapital. rewrite !use_at_ok, !indicator_at_ok. by eexists.
Qed.

(** X17.  [parseCapital] never throws, whatever the shape of the sheet:
    each section is read from its fixed row when the sheet has that row and
    is absent otherwise, a missing cell of a row counting as an empty
    one. *)
Theorem parseCapital_fixed_rows rows :
  ∃ c, parseCapital rows = Ok c
    ∧ uses_hardCosts c = use_of_row <$> rows !! 1%nat
    ∧ uses_softCosts c = use_of_row <$> rows !! 2%nat
    ∧ uses_terreno c = use_of_row <$> rows !! 3%nat
    ∧ totalIncome c
      = indicator_of_row parseNumber (js "Ingresos Totales") <$> rows !! 12%nat
    ∧ projectCost c
      = indicator_of_row parseNumber (js "Costo del Proyecto") <$> rows !! 13%nat
    ∧ profit c = indicator_of_row parseNumber (js "Utilidad") <$> rows !! 14%nat
    ∧ margin c
      = indicator_of_row parsePercent (js "Margen de Utilidad") <$> rows !! 15%nat
    ∧ capitalContributed c
      = indicator_of_row parseNumber (js "Capital Aportado") <$> rows !! 18%nat
    ∧ totalReturn c
      = indicator_of_row parseNumber (js "Retorno Total") <$> rows !! 19%nat
    ∧ roi c = indicator_of_row parsePercent (js "ROI") <$> rows !! 20%nat
    ∧ capitalMultiple c
      = indicator_of_row parseNumber
          (js "M" ++ [250%N] ++ js "ltiplo de Capital") <$> rows !! 21%nat.
Proof.
  unfold parseCapital. rewrite !use_at_ok, !indicator_at_ok.
  eexists. split; [reflexivity|]. simpl.
  rewrite <- !(row_at_nat rows). repeat split; reflexivity.
Qed.

Lemma investors_loop_seq rows i n :
  i + n ≤ 11 →
  investors_loop rows (seq i n)
  = investor_of_row <$> take_while has_name (take n (drop i rows)).
Proof.
  revert i. induction n as [|n IH]; intros i Hi; [by rewrite take_0|].
  cbn [seq investors_loop].
  rewrite (proj2 (Nat.ltb_lt i 11)) by lia. simpl andb.
  destruct (rows !! i) as [row|] eqn:Hrow.
  - rewrite (proj2 (Nat.ltb_lt i (length rows)))
      by (by apply lookup_lt_Some in Hrow).
    rewrite (drop_S _ _ _ Hrow). cbn [take take_while].
    destruct (row !! 0) as [cell0|] eqn:Hcell.
    2:{ unfold has_name. by rewrite Hcell. }
    assert (Hname : has_name row = negb (bool_decide (trim cell0 = [])))
      by (unfold has_name; by rewrite Hcell).
    assert (Hinv : investor_of_row row
                   = mkInvestor (trim cell0) (parseNumber (row !! 2)))
      by (unfold investor_of_row; by rewrite Hcell).
    rewrite Hname.
    destruct (bool_decide (trim cell0 = [])) eqn:Hblank.
    + simpl. by rewrite orb_true_r.
    + assert (Ht : truthy_str cell0 = true).
      { destruct cell0; [|done]. by rewrite trim_nil in Hblank. }
      rewrite Ht. simpl negb. simpl orb. cbv iota.
      rewrite IH by lia. rewrite fmap_cons. by rewrite Hinv.
  - rewrite (proj2 (Nat.ltb_ge i (length rows)))
      by (by apply lookup_ge_None in Hrow).
    by rewrite drop_ge by (by apply lookup_ge_None in Hrow).
Qed.

(** X18.  The investors are read from the rows of index 6 to 10 and no
    further: one investor for each of these rows in order, name from cell A
    and amount from cell C, up to the first row whose cell A is missing or
    blank.  So there are at most five of them. *)
Theorem parseCapital_investors rows c :
  parseCapital rows = Ok c →
  investors c = investor_of_row <$> take_while has_name (take 5 (drop 6 rows))
  ∧ length (investors c) ≤ 5.
Proof.
  intros Hc. assert (Hinv : investors c = investors_loop rows (seq 6 5)).
  { unfold parseCapital in Hc. rewrite !use_at_ok, !indicator_at_ok in Hc.
    simpl in Hc. by injection Hc as <-. }
  rewrite Hinv, investors_loop_seq by lia. split; [done|].
  rewrite length_fmap.
  assert (Hle : ∀ (l : list (list jsstring)),
            length (take_while has_name l) ≤ length l).
  { induction l as [|x l IHl]; simpl; [done|].
    destruct (has_name x); simpl; lia. }
  etrans; [apply Hle|]. rewrite length_take. lia.
Qed.

Lemma parseCapital_investors_witness :
  ∃ c, parseCapital sample_capital_rows = Ok c
     ∧ investors c = [mkInvestor (js "Ana") (num_of_Z 100);
                      mkInvestor (js "Bob") zero].
Proof.
  destruct (parseCapital_ok sample_capital_rows) as (c & Hc).
  exists c. split; [exact Hc|].
  rewrite (proj1 (parseCapital_investors sample_capital_rows c Hc)).
  reflexivity.
Defined.

(** ** The budget sheet *)

Lemma findIndex_from_find {A} (p : A → bool) (arr : list A) (i : Z) :
  match find p arr with
  | Some x => ∃ n : nat, findIndex_from p arr i = (i + Z.of_nat n)%Z
                ∧ arr !! n = Some x ∧ p x = true
                ∧ ∀ m y, m < n → arr !! m = Some y → p y = false
  | None => findIndex_from p arr i = (-1)%Z
  end.
Proof.
  revert i. induction arr as [|x arr IH]; intros i; simpl; [done|].
  destruct (p x) eqn:Hx.
  - exists 0. repeat split; [lia|done|]. intros m y Hm. lia.
  - specialize (IH (i + 1)%Z). destruct (find p arr) as [x'|]; [|done].
    destruct IH as (n & Hidx & Hn & Hp & Hmin).
    exists (S n). repeat split; [lia|done|done|].
    intros [|m] y Hm; simpl; [by intros [= <-]|].
    intros Hy. apply (Hmin m y); [lia|done].
Qed.

(** The row that [findRow] points to is the first labelled row. *)
Lemma findRow_first rows lbl :
  match first_labelled rows lbl with
  | Some row => (0 <=? findRow rows lbl)%Z = true
                ∧ row_at rows (findRow rows lbl) = Some row
  | None => findRow rows lbl = (-1)%Z
  end.
Proof.
  unfold first_labelled, findRow, findIndex.
  pose proof (findIndex_from_find (row_has_label lbl) rows 0) as H.
  destruct (find (row_has_label lbl) rows) as [row|]; [|done].
  destruct H as (n & -> & Hn & _). split; [apply Z.leb_le; lia|].
  rewrite Z.add_0_l. by rewrite row_at_nat.
Qed.

Lemma amount_under_ok rows lbl :
  amount_under rows lbl
  = Ok ((fun row => parseNumber (row !! 10%nat)) <$> first_labelled rows lbl).
Proof.
  unfold amount_under. pose proof (findRow_first rows lbl) as H.
  destruct (first_labelled rows lbl) as [row|].
  - destruct H as [H0 Hrow]. rewrite H0. by rewrite (cell_at _ _ _ row Hrow).
  - by rewrite H.
Qed.

Lemma items_loop_ok rows labels :
  items_loop rows labels
  = Ok (omap (fun lbl => item_of_row lbl <$> first_labelled rows lbl) labels).
Proof.
  induction labels as [|lbl labels IH]; [done|]. cbn [items_loop].
  pose proof (findRow_first rows lbl) as H. csimpl.
  destruct (first_labelled rows lbl) as [row|].
  - destruct H as [H0 Hrow]. rewrite H0, Hrow.
    rewrite bool_decide_eq_true_2 by eauto. simpl andb. cbv iota.
    rewrite !(cell_at _ _ _ row Hrow), IH. reflexivity.
  - rewrite H. simpl. apply IH.
Qed.

Lemma houses_loop_ok rows labels :
  houses_loop rows (findRow rows <$> labels)
  = Ok (omap (fun lbl => house_of_row <$> first_labelled rows lbl) labels).
Proof.
  induction labels as [|lbl labels IH]; [done|].
  rewrite fmap_cons. cbn [houses_loop].
  pose proof (findRow_first rows lbl) as H. csimpl.
  destruct (first_labelled rows lbl) as [row|].
  - destruct H as [H0 Hrow]. rewrite H0, Hrow.
    rewrite bool_decide_eq_true_2 by eauto. simpl andb. cbv iota.
    rewrite !(cell_at _ _ _ row Hrow), IH. reflexivity.
  - rewrite H. simpl. apply IH.
Qed.

Lemma parseBudget_ok rows : ∃ b, parseBudget rows = Ok b.
Proof.
  unfold parseBudget.
  change [findRow rows (js "Casa 1"); findRow rows (js "Casa 2")]
    with (findRow rows <$> [js "Casa 1"; js "Casa 2"]).
  rewrite houses_loop_ok, !amount_under_ok, !items_loop_ok. by eexists.
Qed.




(** ** The cache and [fetchAllData] *)

Lemma fetchCSV_good reply text :
  good_reply reply = Some text → fetchCSV reply = Fulfilled (parseCSV text).
Proof.
  destruct reply as [m|status statusText [t|m]]; simpl; try done.
  destruct (response_ok status); [|done]. by intros [= ->].
Qed.

Lemma fetchCSV_bad reply :
  good_reply reply = None → ∃ e, fetchCSV reply = Rejected e.
Proof.
  destruct reply as [m|status statusText [t|m]]; simpl; eauto;
    destruct (response_ok status); simpl; eauto; done.
Qed.

(** What [Promise.all] rejects with: the error of a promise that is
    rejected, and no rejected promise settles before that one. *)
Lemma first_rejection_spec {A} (ps : list (settled A)) :
  match first_rejection ps with
  | None => Forall (fun p => ∃ a, result p = Fulfilled a) ps
  | Some (t, e) =>
      ∃ p, p ∈ ps ∧ result p = Rejected e ∧ when p = t
           ∧ Forall (fun p' => (∃ e', result p' = Rejected e') →
                       (t <= when p')%N) ps
  end.
Proof.
  induction ps as [|p ps IH]; simpl; [constructor|].
  destruct (result p) as [a|e] eqn:Hp.
  - destruct (first_rejection ps) as [[t' e']|].
    + destruct IH as (q & Hin & Hres & Ht & Hmin).
      exists q. split; [by apply elem_of_cons; right|].
      split; [done|]. split; [done|].
      constructor; [|done]. intros [e0 He0]. congruence.
    + constructor; [eauto|done].
  - destruct (first_rejection ps) as [[t' e']|].
    + destruct IH as (q & Hin & Hres & Ht & Hmin).
      destruct (N.ltb_spec t' (when p)) as [Hlt|Hge].
      * exists q. split; [by apply elem_of_cons; right|].
        split; [done|]. split; [done|].
        constructor; [intros _; lia|done].
      * exists p. split; [by apply elem_of_cons; left|].
        split; [done|]. split; [done|].
        constructor; [intros _; lia|].
        eapply Forall_impl; [|exact Hmin]. intros x Hx Hrej.
        specialize (Hx Hrej). lia.
    + exists p. split; [by apply elem_of_cons; left|].
      split; [done|]. split; [done|].
      constructor; [intros _; lia|].
      eapply Forall_impl; [|exact IH]. intros x [a Ha] [e' He']. congruence.
Qed.

Lemma first_rejection_none {A} (ps : list (settled A)) :
  Forall (fun p => ∃ a, result p = Fulfilled a) ps → first_rejection ps = None.
Proof.
  induction 1 as [|p ps [a Hp] _ IH]; simpl; [done|]. by rewrite Hp.
Qed.

(** A call that finds no valid cache entry: it requests the three sheets,
    and either rejects and leaves the state as it is, or resolves to a new
    snapshot that it stores with the time of the call. *)
Lemma fetchAllData_miss Date_parse net now date_now this project :
  cache_valid this project now = false →
  let r := fetchAllData Date_parse net now date_now this project in
  requests r = sheet_urls project
  ∧ ((∃ e, returned r = Rejected e ∧ after r = this)
     ∨ (∃ parsed, returned r = Fulfilled (Entry parsed)
          ∧ after r = mkDataService
                        (cache_set (cache this) (key project) parsed)
                        (Some now))).
Proof.
  intros Hvalid. unfold fetchAllData. rewrite Hvalid.
  destruct (Promise_all _) as [sheets|e]; [|simpl; eauto].
  destruct (parseBudget _) as [b|]; [|simpl; eauto].
  destruct (parseCapital _) as [c|]; simpl; eauto.
Qed.

Lemma cache_valid_requests Date_parse net now date_now this project :
  requests (fetchAllData Date_parse net now date_now this project) ≠ [] →
  cache_valid this project now = false.
Proof.
  unfold fetchAllData. by destruct (cache_valid this project now).
Qed.

Lemma cache_set_reachable c k s :
  own c !! PROTO = None → own (cache_set c k s) !! PROTO = None.
Proof.
  intros Hc. unfold cache_set. destruct (decide (k = PROTO)) as [->|Hk].
  - by rewrite bool_decide_eq_true_2.
  - rewrite bool_decide_eq_false_2 by done. simpl.
    by rewrite lookup_insert_ne.
Qed.

Lemma cache_get_set c k s :
  own c !! PROTO = None → cache_get (cache_set c k s) k = Entry s.
Proof.
  intros Hc. unfold cache_set, cache_get.
  destruct (decide (k = PROTO)) as [->|Hk].
  - rewrite !bool_decide_eq_true_2 by done. simpl. by rewrite Hc.
  - rewrite bool_decide_eq_false_2 by done. simpl.
    by rewrite lookup_insert_eq.
Qed.

Lemma cache_get_set_other c k s k' s' :
  own c !! PROTO = None → k ≠ k' →
  cache_get (cache_set (cache_set c k s) k' s') k = Entry s.
Proof.
  intros Hc Hne. unfold cache_set, cache_get.
  destruct (decide (k = PROTO)) as [->|Hk];
    destruct (decide (k' = PROTO)) as [->|Hk']; try done.
  - rewrite !(bool_decide_eq_true_2 (PROTO = PROTO)) by done.
    rewrite !(bool_decide_eq_false_2 (k' = PROTO)) by done. simpl.
    rewrite lookup_insert_ne by done. by rewrite Hc.
  - rewrite !(bool_decide_eq_false_2 (k = PROTO)) by done.
    rewrite !(bool_decide_eq_true_2 (PROTO = PROTO)) by done. simpl.
    by rewrite lookup_insert_eq.
  - rewrite !(bool_decide_eq_false_2 (k = PROTO)) by done.
    rewrite !(bool_decide_eq_false_2 (k' = PROTO)) by done. simpl.
    rewrite lookup_insert_ne by done. by rewrite lookup_insert_eq.
Qed.

Lemma cache_valid_entry this project now s ts :
  cache_get (cache this) (key project) = Entry s →
  cacheTimestamp this = Some ts → ts ≠ 0%Z → (now - ts < CACHE_TTL)%Z →
  cache_valid this project now = true.
Proof.
  intros Hget Hts Hnz Hlt. unfold cache_valid. rewrite Hget, Hts.
  apply andb_true_iff. split.
  - apply negb_true_iff, Z.eqb_neq. done.
  - by apply Z.ltb_lt.
Qed.

(** X21.  When the cache holds nothing valid for the project and the three
    sheets arrive with a status in 200-299, [fetchAllData] requests the
    budget, the expense and the capital sheet in this order, resolves to
    the snapshot of the three parsed sheets, stores it under the key of the
    project and sets the time stamp to the time of the call. *)
Theorem fetchAllData_success Date_parse net now date_now this project tb td tc :
  cache_valid this project now = false →
  good_reply (net 0 (sheets_budget project)).2 = Some tb →
  good_reply (net 1 (sheets_desglose project)).2 = Some td →
  good_reply (net 2 (sheets_capital project)).2 = Some tc →
  ∃ b c, parseBudget (parseCSV tb) = Ok b ∧ parseCapital (parseCSV tc) = Ok c
    ∧ fetchAllData Date_parse net now date_now this project
      = let parsed := mkSnapshot b (parseExpenses Date_parse (parseCSV td)) c
                        date_now in
        mkFetched (Fulfilled (Entry parsed))
          (mkDataService (cache_set (cache this) (key project) parsed)
                         (Some now))
          (sheet_urls project).
Proof.
  intros Hvalid Hb Hd Hc.
  destruct (parseBudget_ok (parseCSV tb)) as [b Hpb].
  destruct (parseCapital_ok (parseCSV tc)) as [c Hpc].
  exists b, c. split; [done|]. split; [done|].
  unfold fetchAllData. rewrite Hvalid. cbn [imap compose]. cbv beta.
  destruct (net 0 (sheets_budget project)) as [t0 r0].
  destruct (net 1 (sheets_desglose project)) as [t1 r1].
  destruct (net 2 (sheets_capital project)) as [t2 r2].
  simpl in Hb, Hd, Hc.
  rewrite (fetchCSV_good _ _ Hb), (fetchCSV_good _ _ Hd), (fetchCSV_good _ _ Hc).
  unfold Promise_all. simpl first_rejection. cbv iota. csimpl.
  by rewrite Hpb, Hpc.
Qed.

Lemma fetchAllData_success_witness :
  requests (fetchAllData (fun _ => None) sample_net 5 6 DataService_init
              (sample_project "K"))
  = [js "u1"; js "u2"; js "u3"]
  ∧ cacheTimestamp
      (after (fetchAllData (fun _ => None) sample_net 5 6 DataService_init
                (sample_project "K")))
    = Some 5%Z.
Proof.
  destruct (fetchAllData_success (fun _ => None) sample_net 5 6
              DataService_init (sample_project "K")
              (js "a,b") (js "a,b") (js "a,b")
              eq_refl eq_refl eq_refl eq_refl) as (b & c & _ & _ & Hr).
  rewrite Hr. split; reflexivity.
Defined.

(** X22.  A call that fetched and resolved is answered from the cache the
    next time: a later call for the same project, less than five minutes
    after the first by the clock, resolves to the same snapshot, sends no
    request and leaves the state as it is.  (A call at time 0 of the clock
    leaves a time stamp that reads as unset.) *)
Theorem fetchAllData_cached_again Date_parse net1 net2 now1 date1 now2 date2
    this project v :
  reachable_cache this →
  requests (fetchAllData Date_parse net1 now1 date1 this project) ≠ [] →
  returned (fetchAllData Date_parse net1 now1 date1 this project) = Fulfilled v →
  now1 ≠ 0%Z →
  (now2 - now1 < CACHE_TTL)%Z →
  fetchAllData Date_parse net2 now2 date2
    (after (fetchAllData Date_parse net1 now1 date1 this project)) project
  = mkFetched (Fulfilled v)
      (after (fetchAllData Date_parse net1 now1 date1 this project)) [].
Proof.
  intros Hreach Hreq Hret Hnz Hlt.
  apply cache_valid_requests in Hreq.
  destruct (fetchAllData_miss Date_parse net1 now1 date1 this project Hreq)
    as [_ [(e & He & _)|(parsed & Hp & Hafter)]]; [congruence|].
  rewrite Hret in Hp. injection Hp as ->. rewrite Hafter.
  unfold fetchAllData at 1.
  rewrite (cache_valid_entry _ _ _ parsed now1); simpl;
    [|by apply cache_get_set|done|done|done].
  by rewrite cache_get_set.
Qed.

Lemma fetchAllData_cached_again_witness :
  requests (fetchAllData (fun _ => None) sample_net 1000 1001
              DataService_init (sample_project "__proto__")) ≠ []
  ∧ fetchAllData (fun _ => None) offline_net 300999 301000
      (after (fetchAllData (fun _ => None) sample_net 1000 1001
                DataService_init (sample_project "__proto__")))
      (sample_project "__proto__")
    = mkFetched
        (returned (fetchAllData (fun _ => None) sample_net 1000 1001
                     DataService_init (sample_project "__proto__")))
        (after (fetchAllData (fun _ => None) sample_net 1000 1001
                  DataService_init (sample_project "__proto__")))
        [].
Proof.
  set (first := fetchAllData (fun _ => None) sample_net 1000 1001
                  DataService_init (sample_project "__proto__")).
  assert (Hreq : requests first ≠ []) by (vm_compute; discriminate).
  split; [exact Hreq|].
  destruct (returned first) as [v|e] eqn:Hret; [|by vm_compute in Hret].
  apply fetchAllData_cached_again;
    [reflexivity|exact Hreq|exact Hret|discriminate|reflexivity].
Defined.

(** X23.  When the cache holds nothing valid for the project and at least
    one of the three sheets fails to arrive (a transport error, a status
    outside 200-299, or a body that cannot be read), [fetchAllData] still
    issues the three requests, rejects with the error of one of the
    requests that failed, and leaves the cache and its time stamp as they
    were. *)
Theorem fetchAllData_failure Date_parse net now date_now this project i url :
  cache_valid this project now = false →
  sheet_urls project !! i = Some url →
  good_reply (net i url).2 = None →
  ∃ j url' e,
    sheet_urls project !! j = Some url'
    ∧ fetchCSV (net j url').2 = Rejected e
    ∧ fetchAllData Date_parse net now date_now this project
      = mkFetched (Rejected e) this (sheet_urls project).
Proof.
  intros Hvalid Hurl Hbad. unfold fetchAllData. rewrite Hvalid.
  fold (sheet_urls project).
  set (issue := fun (i : nat) (url : jsstring) =>
                  let '(t, reply) := net i url in
                  mkSettled t (fetchCSV reply)).
  assert (Hres : ∀ j u, result (issue j u) = fetchCSV (net j u).2).
  { intros j u. unfold issue. by destruct (net j u). }
  unfold Promise_all.
  pose proof (first_rejection_spec (imap issue (sheet_urls project))) as Hspec.
  destruct (first_rejection (imap issue (sheet_urls project)))
    as [[t e]|].
  - destruct Hspec as (p & Hin & Hp & _).
    apply list_elem_of_lookup in Hin as [j Hj].
    rewrite list_lookup_imap in Hj.
    destruct (sheet_urls project !! j) as [url'|] eqn:Hurl'; [|done].
    injection Hj as <-. exists j, url', e. rewrite <- Hres. done.
  - exfalso. rewrite Forall_forall in Hspec.
    destruct (Hspec (issue i url)) as [a Ha].
    + apply list_elem_of_In, list_elem_of_lookup. exists i.
      by rewrite list_lookup_imap, Hurl.
    + rewrite Hres in Ha. destruct (fetchCSV_bad _ Hbad) as [e He].
      congruence.
Qed.

Lemma fetchAllData_failure_witness :
  fetchAllData (fun _ => None) failing_net 5 6 DataService_init
    (sample_project "K")
  = mkFetched (Rejected (Error (js "HTTP 404: Not Found"))) DataService_init
      [js "u1"; js "u2"; js "u3"].
Proof.
  destruct (fetchAllData_failure (fun _ => None) failing_net 5 6
              DataService_init (sample_project "K") 1 (js "u2")
              eq_refl eq_refl eq_refl)
    as (j & url' & e & Hj & He & Hr).
  rewrite Hr.
  destruct j as [|[|[|j]]]; try discriminate Hj; try discriminate He.
  injection He as <-. reflexivity.
Defined.

Lemma requests_miss Date_parse net now date_now this project :
  cache_valid this project now = false →
  requests (fetchAllData Date_parse net now date_now this project)
  = sheet_urls project.
Proof. intros H. by apply fetchAllData_miss. Qed.

(** X24.  [fetchAllData] goes to the network whenever the time stamp is
    unset or five minutes old or more, whatever the cache holds; so the
    first call, and every call that follows [clearCache], requests the three
    sheets. *)
Theorem fetchAllData_refetch Date_parse net now date_now project :
  (∀ this, requests (fetchAllData Date_parse net now date_now
                       (clearCache this) project) = sheet_urls project)
  ∧ (∀ this, cacheTimestamp this = None →
       requests (fetchAllData Date_parse net now date_now this project)
       = sheet_urls project)
  ∧ (∀ this ts, cacheTimestamp this = Some ts →
       (CACHE_TTL <= now - ts)%Z →
       requests (fetchAllData Date_parse net now date_now this project)
       = sheet_urls project).
Proof.
  split; [|split].
  - intros this. apply requests_miss. unfold cache_valid. simpl.
    by destruct (cache_get _ _).
  - intros this Hts. apply requests_miss. unfold cache_valid. rewrite Hts.
    by destruct (cache_get _ _).
  - intros this ts Hts Hold. apply requests_miss. unfold cache_valid.
    rewrite Hts. rewrite (proj2 (Z.ltb_ge _ _)) by done.
    rewrite andb_false_r. by destruct (cache_get _ _).
Qed.

Lemma fetchAllData_refetch_witness :
  cacheTimestamp
    (after (fetchAllData (fun _ => None) sample_net 1000 1001
              DataService_init (sample_project "K")))
  = Some 1000%Z
  ∧ requests
      (fetchAllData (fun _ => None) sample_net 301000 301001
         (after (fetchAllData (fun _ => None) sample_net 1000 1001
                   DataService_init (sample_project "K")))
         (sample_project "K"))
    = [js "u1"; js "u2"; js "u3"].
Proof.
  set (first := fetchAllData (fun _ => None) sample_net 1000 1001
                  DataService_init (sample_project "K")).
  assert (Hts : cacheTimestamp (after first) = Some 1000%Z) by reflexivity.
  split; [exact Hts|].
  apply (proj2 (proj2 (fetchAllData_refetch (fun _ => None) sample_net
                         301000 301001 (sample_project "K")))
           (after first) 1000%Z Hts).
  vm_compute. discriminate.
Defined.

(** X25.  The cache has one time stamp for all projects: fetching
    project B renews it, so a call for project A that follows within five
    minutes of the fetch of B is answered with the snapshot stored for A,
    without a request, however long ago A was fetched. *)
Theorem fetchAllData_shared_timestamp Date_parse netA netB net nowA dateA
    nowB dateB now date_now this projectA projectB v :
  let afterA := after (fetchAllData Date_parse netA nowA dateA this projectA) in
  let afterB := after (fetchAllData Date_parse netB nowB dateB afterA projectB) in
  reachable_cache this →
  key projectA ≠ key projectB →
  requests (fetchAllData Date_parse netA nowA dateA this projectA) ≠ [] →
  returned (fetchAllData Date_parse netA nowA dateA this projectA) = Fulfilled v →
  requests (fetchAllData Date_parse netB nowB dateB afterA projectB) ≠ [] →
  (∃ w, returned (fetchAllData Date_parse netB nowB dateB afterA projectB)
        = Fulfilled w) →
  nowB ≠ 0%Z →
  (now - nowB < CACHE_TTL)%Z →
  fetchAllData Date_parse net now date_now afterB projectA
  = mkFetched (Fulfilled v) afterB [].
Proof.
  intros afterA afterB Hreach Hne HreqA HretA HreqB [w HretB] Hnz Hlt.
  apply cache_valid_requests in HreqA, HreqB.
  destruct (fetchAllData_miss Date_parse netA nowA dateA this projectA HreqA)
    as [_ [(e & He & _)|(pa & Hpa & HafterA)]]; [congruence|].
  rewrite HretA in Hpa. injection Hpa as ->.
  destruct (fetchAllData_miss Date_parse netB nowB dateB afterA projectB HreqB)
    as [_ [(e & He & _)|(pb & Hpb & HafterB)]]; [congruence|].
  fold afterA in HafterA. fold afterB in HafterB.
  assert (Hget : cache_get (cache afterB) (key projectA) = Entry pa).
  { rewrite HafterB, HafterA. simpl. by apply cache_get_set_other. }
  unfold fetchAllData.
  rewrite (cache_valid_entry afterB projectA now pa nowB);
    [by rewrite Hget|done|by rewrite HafterB|done|done].
Qed.

Lemma fetchAllData_shared_timestamp_witness :
  (CACHE_TTL <= 361000 - 1000)%Z
  ∧ fetchAllData (fun _ => None) offline_net 361000 361001
      (after (fetchAllData (fun _ => None) sample_net 241000 241001
                (after (fetchAllData (fun _ => None) sample_net 1000 1001
                          DataService_init (sample_project "A")))
                (sample_project "B")))
      (sample_project "A")
    = mkFetched
        (returned (fetchAllData (fun _ => None) sample_net 1000 1001
                     DataService_init (sample_project "A")))
        (after (fetchAllData (fun _ => None) sample_net 241000 241001
                  (after (fetchAllData (fun _ => None) sample_net 1000 1001
                            DataService_init (sample_project "A")))
                  (sample_project "B")))
        [].
Proof.
  set (firstA := fetchAllData (fun _ => None) sample_net 1000 1001
                   DataService_init (sample_project "A")).
  set (firstB := fetchAllData (fun _ => None) sample_net 241000 241001
                   (after firstA) (sample_project "B")).
  split; [vm_compute; discriminate|].
  destruct (returned firstA) as [v|e] eqn:Hret; [|by vm_compute in Hret].
  apply (fetchAllData_shared_timestamp (fun _ => None) sample_net sample_net
           offline_net 1000 1001 241000 241001 361000 361001 DataService_init
           (sample_project "A") (sample_project "B") v).
  - reflexivity.
  - vm_compute. discriminate.
  - vm_compute. discriminate.
  - exact Hret.
  - vm_compute. discriminate.
  - destruct (returned firstB) as [w|e] eqn:HretB; [by exists w|].
    by vm_compute in HretB.
  - discriminate.
  - reflexivity.
Defined.

(** ** Round trips *)




(** X27.  On the rows of a parsed sheet the trimming of [parseExpenses]
    changes nothing, the tokenizer having trimmed every field: each expense
    of [parseExpenses(parseCSV(text))] holds cells A, B and C of a row after
    the first as they are, with the date parsed from cell A and the amount
    parsed from cell E. *)
Theorem parseExpenses_of_parseCSV Date_parse text e :
  e ∈ parseExpenses Date_parse (parseCSV text) →
  ∃ row, row ∈ drop 1 (parseCSV text) ∧ 5 ≤ length row
    ∧ row !! 0 = Some (date e)
    ∧ row !! 1 = Some (category e)
    ∧ row !! 2 = Some (subcategory e)
    ∧ amount e = parseNumber (row !! 4)
    ∧ dateObj e = parseDate Date_parse (date e).
Proof.
  unfold parseExpenses. intros (row & Hin & He)%list_elem_of_omap.
  exists row. split; [done|].
  assert (Htrim : Forall trimmed row).
  { pose proof (parseCSV_fields_trimmed text) as H.
    rewrite Forall_forall in H.
    apply (H row), list_elem_of_In, (subseteq_drop 1), Hin. }
  unfold expense_of_row in He. rewrite !or_default_nil in He.
  destruct (Nat.ltb_spec (length row) 5) as [|Hlen]; [done|].
  split; [done|].
  assert (Hcell : ∀ i, i < 5 → ∃ c, row !! i = Some c ∧ trim c = c).
  { intros i Hi. destruct (lookup_lt_is_Some_2 row i) as [c Hc]; [lia|].
    exists c. split; [done|]. apply trim_of_trimmed.
    rewrite Forall_forall in Htrim.
    by apply Htrim, list_elem_of_In, list_elem_of_lookup_2 with i. }
  destruct (Hcell 0) as (c0 & H0 & T0); [lia|].
  destruct (Hcell 1) as (c1 & H1 & T1); [lia|].
  destruct (Hcell 2) as (c2 & H2 & T2); [lia|].
  rewrite H0, H1, H2 in He. simpl in He. rewrite T0, T1, T2 in He.
  destruct (negb (truthy_str c1) && negb (truthy_num (parseNumber (row !! 4))));
    [done|].
  injection He as <-. simpl. by rewrite H0, H1, H2.
Qed.

Lemma parseExpenses_of_parseCSV_witness :
  ∃ e row, e ∈ parseExpenses (fun _ => None) (parseCSV sample_sheet)
    ∧ row ∈ drop 1 (parseCSV sample_sheet)
    ∧ row !! 1 = Some (category e).
Proof.
  set (e := mkExpense (js "1/2/2024") (Some (DateLocal 2024 0 2))
              (js "Hard Cost") (js "Obra") (num_of_Z 5)).
  assert (He : e ∈ parseExpenses (fun _ => None) (parseCSV sample_sheet))
    by (vm_compute; apply list_elem_of_here).
  destruct (parseExpenses_of_parseCSV _ _ _ He) as (row & Hrow & _ & _ & H1 & _).
  by exists e, row.
Defined.

